(** * percona-agent: instance registry, restart monitor and instance manager

    A shallow embedding of

    - [instance/repo.go]            (package [instance], type [Repo]),
    - the MySQL restart monitor     (package [monitor], type [Monitor]),
    - the instance manager          (package [instance], type [Manager]),

    followed by the properties of these three components.

    Conventions.  Go maps are [gmap]s.  A Go pointer that may be [nil] is an
    [option].  A method that mutates its receiver takes the receiver's state
    and returns the new one.  The outside world (files, the remote API, the
    MySQL servers) answers through the fields of an environment record [Env],
    and every request made to it is appended to a trace, so that "no file was
    touched" and "no request was sent" are statements about that trace.
    Locks, loggers and the status cell are not modelled: the operations below
    run one at a time and none of them reads back what it logged.  The
    goroutines ([Monitor.Start], [Manager.Start] and the restart consumer)
    are outside this development. *)

From stdpp Require Import gmap strings list fin_maps.

Open Scope string_scope.

(** ** Results of a call *)

(** A Go call either returns, or panics (here: a nil dereference), or, for
    the recursive [Repo.get] that is given fuel, has not returned yet when
    the fuel is used up.  The state reached is kept in the first two cases. *)
Inductive run (S A : Type) : Type :=
| Returned (a : A) (s : S)
| Panicked (s : S)
| OutOfFuel.
Arguments Returned {S A} a s.
Arguments Panicked {S A} s.
Arguments OutOfFuel {S A}.

(** ** proto: the records of the wire protocol *)

(** [proto.InstanceConfig], with the fields this code reads.  [Properties] is
    a Go map and may be nil ([None]). *)
Record InstanceConfig : Type := {
  UUID : string;
  Type_ : string;
  Prefix : string;
  Properties : option (gmap string string)
}.

(** [inst.Properties[k]] with the comma-ok form: a nil map has no key. *)
Definition prop_lookup (inst : InstanceConfig) (k : string) : option string :=
  match Properties inst with
  | Some ps => ps !! k
  | None => None
  end.

(** [inst.Properties[k]] without comma-ok: the zero value when absent. *)
Definition prop_get (inst : InstanceConfig) (k : string) : string :=
  default "" (prop_lookup inst k).

(** The errors of package [pct], and the errors built in place with
    [fmt.Errorf] and [errors.New], one constructor per site. *)
Inductive error : Type :=
| DuplicateInstanceError (Id : string)
| InvalidInstanceError (Id : string)
| UnknownInstanceError (Id : string)
| UnknownCmdError (Cmd : string)
| ExternalError (msg : string)
    (* an error value made outside this code: OS, HTTP client, SQL driver *)
| FailedToGetError (id link : string) (cause : error)
    (* "Failed to get %s instance from %s: %s" *)
| UnexpectedCodeError (id link : string) (code : Z)
    (* "Getting %s instance from %s returned code %d, expected 200" *)
| NoDataError
    (* "Getting %s instance from %s did not return data" *)
| UnmarshalAPIError (cause : error)
    (* "Failed to unmarshal instance data provided by API: %s" *)
| FailedToAddError (cause : error)
    (* "Failed to add new instance: %s" *)
| DontKnowInfoError (uuid : string)
    (* "Don't know how to get info for %s instance" *)
| FailedToPutError (code : Z).
    (* "Failed to PUT: %d, %s" *)

(** A byte slice that is handed to [json.Unmarshal(data, &it)] with
    [it : *proto.InstanceConfig], taken up to what the decoder makes of it:
    an error, the JSON value [null] (which leaves [it] nil and is no error),
    or a record. *)
Inductive body : Type :=
| NotJSON (err : error)
| JSONNull
| JSONObject (it : InstanceConfig).

Definition json_Unmarshal (data : body) : option InstanceConfig * option error :=
  match data with
  | NotJSON e => (None, Some e)
  | JSONNull => (None, None)
  | JSONObject r => (Some r, None)
  end.

(** ** The environment *)

Inductive io_event : Type :=
| WriteFile (path : string)
| RemoveFile (path : string)
| HttpGet (apiKey url : string)
| HttpPut (apiKey url : string)
| MySQLConnect (dsn : string).

(** What the outside answers.  [pct.APIConnector] is an interface; its three
    methods used here are [EntryLink], [ApiKey] and [Get]/[Put].  [api_Get]
    is a function of the URL: the remote API answers the same request the
    same way. *)
Record Env : Type := {
  configDir : string;                       (* Repo.configDir *)
  Basedir_config : string;                  (* config directory of pct.Basedir *)
  api_EntryLink : string -> string;
  api_ApiKey : string;
  api_Get : string -> string -> Z * option body * option error;
  api_Put : string -> string -> InstanceConfig -> option Z * option error;
  write_error : string -> option error;     (* why writing this path fails *)
  remove_error : string -> option error;    (* why removing this path fails *)
  mysql_info : string -> (string * string * string) + error;
                                            (* answer to the metadata query *)
  mysql_uptime : string -> Z + error        (* answer to the liveness query *)
}.

(** ** instance.Repo *)

(** The registry map [r.it], with the part of the world its methods act on:
    the files on disk (a path holds the record whose JSON encoding was
    written to it) and the trace of requests made so far. *)
Record Repo : Type := {
  it : gmap string InstanceConfig;
  disk : gmap string InstanceConfig;
  trace : list io_event
}.

Definition NewRepo (files : gmap string InstanceConfig) : Repo :=
  {| it := ∅; disk := files; trace := [] |}.

Definition set_it (f : gmap string InstanceConfig -> gmap string InstanceConfig)
    (r : Repo) : Repo :=
  {| it := f (it r); disk := disk r; trace := trace r |}.

Definition set_disk (f : gmap string InstanceConfig -> gmap string InstanceConfig)
    (r : Repo) : Repo :=
  {| it := it r; disk := f (disk r); trace := trace r |}.

Definition emit (e : io_event) (r : Repo) : Repo :=
  {| it := it r; disk := disk r; trace := (trace r ++ [e])%list |}.

(** [[:xdigit:]] of RE2: 0-9, A-F, a-f. *)
Definition xdigit (c : Ascii.ascii) : bool :=
  let n := Ascii.nat_of_ascii c in
  ((48 <=? n) && (n <=? 57) || (65 <=? n) && (n <=? 70)
   || (97 <=? n) && (n <=? 102))%nat.

(** [[[:xdigit:]]{n}] at the head of [s]: the rest of [s] after [n] hex
    digits, if [s] starts with that many. *)
Fixpoint xdigits (n : nat) (s : string) : option string :=
  match n with
  | O => Some s
  | S n' =>
      match s with
      | String c s' => if xdigit c then xdigits n' s' else None
      | EmptyString => None
      end
  end.

(** [valid]: the whole of [id] matches [^[[:xdigit:]]{32}$] (without the
    multi-line flag, [$] is the end of the text). *)
Definition valid (id : string) : bool :=
  match xdigits 32 id with
  | Some EmptyString => true
  | _ => false
  end.

Definition configName (id : string) : string := "instance-" ++ id.

(** ** monitor.Monitor: the MySQL restart monitor *)

Module monitor.

(** A Go channel value: [nil], or a reference to a channel made by [make]. *)
Abbreviation chan := (option positive).

(** Modelled from the spec: the types [Subscribers] and [MysqlInstance] of
    package [monitor] are not among the sources.  A watched target holds the
    set of delivery channels subscribed to it and its restart fingerprint,
    the liveness marker last observed. *)
Record MysqlInstance : Type := {
  Subscribers : gset chan;
  fingerprint : Z
}.

(** [Monitor.mysqlInstances], keyed by DSN, and the next channel reference
    that [make] hands out.  The map holds pointers in Go: a change made
    through [mysqlInstance] is a change of the map's entry. *)
Record Monitor : Type := {
  mysqlInstances : gmap string MysqlInstance;
  next_chan : positive
}.

Definition NewMonitor : Monitor :=
  {| mysqlInstances := ∅; next_chan := 1%positive |}.

(** Modelled from the spec: [NewSubscribers] starts with no channel. *)
Definition NewSubscribers : gset chan := ∅.

(** Modelled from the spec: [Subscribers.Add] makes a new channel, puts it
    into the set and returns it. *)
Definition Subscribers_Add (fresh : positive) (mi : MysqlInstance)
    : chan * MysqlInstance :=
  (Some fresh,
   {| Subscribers := Subscribers mi ∪ {[Some fresh]};
      fingerprint := fingerprint mi |}).

(** Modelled from the spec: [Subscribers.Remove] takes the channel out of
    the set; a channel that is not in the set changes nothing. *)
Definition Subscribers_Remove (c : chan) (mi : MysqlInstance) : MysqlInstance :=
  {| Subscribers := Subscribers mi ∖ {[c]}; fingerprint := fingerprint mi |}.

(** Modelled from the spec: [Subscribers.Empty] tells whether the set has
    no channel. *)
Definition Subscribers_Empty (mi : MysqlInstance) : bool :=
  (size (Subscribers mi) =? 0)%nat.

(** Modelled from the spec: [NewMysqlInstance] establishes the baseline
    fingerprint of the target through its connection; a failure is handed
    to the caller (the instance or the error, never both nil).  [now] is
    what the servers answer at this moment through the connections that
    [mysqlConnFactory] makes. *)
Definition NewMysqlInstance (now : string -> Z + error) (dsn : string)
    (subscribers : gset chan) : MysqlInstance + error :=
  match now dsn with
  | inl up => inl {| Subscribers := subscribers; fingerprint := up |}
  | inr err => inr err
  end.

(** Modelled from the spec: [MysqlInstance.CheckIfMysqlRestarted] reads the
    current fingerprint; a fingerprint different from the baseline replaces
    it and signals a restart; a failed reading signals none. *)
Definition CheckIfMysqlRestarted (now : string -> Z + error) (dsn : string)
    (mi : MysqlInstance) : bool * MysqlInstance :=
  match now dsn with
  | inl up =>
      if (up =? fingerprint mi)%Z then (false, mi)
      else (true, {| Subscribers := Subscribers mi; fingerprint := up |})
  | inr _ => (false, mi)
  end.

(** [func (m *Monitor) createMysqlInstance(dsn string)] *)
Definition createMysqlInstance (now : string -> Z + error) (dsn : string)
    : MysqlInstance + error :=
  NewMysqlInstance now dsn NewSubscribers.

(** [func (m *Monitor) Add(dsn string) (c chan bool, err error)] *)
Definition Add (now : string -> Z + error) (dsn : string) (m : Monitor)
    : (chan * option error) * Monitor :=
  let subscribe (mi : MysqlInstance) (tbl : gmap string MysqlInstance) :=
    let '(c, mi) := Subscribers_Add (next_chan m) mi in
    ((c, None),
     {| mysqlInstances := <[dsn := mi]> tbl;
        next_chan := Pos.succ (next_chan m) |}) in
  match mysqlInstances m !! dsn with
  | Some mi => subscribe mi (mysqlInstances m)
  | None =>
      match createMysqlInstance now dsn with
      | inr err => ((None, Some err), m)
      | inl mi => subscribe mi (<[dsn := mi]> (mysqlInstances m))
      end
  end.

(** [func (m *Monitor) Remove(dsn string, c chan bool)] *)
Definition Remove (dsn : string) (c : chan) (m : Monitor) : Monitor :=
  match mysqlInstances m !! dsn with
  | Some mi =>
      let mi := Subscribers_Remove c mi in
      if Subscribers_Empty mi then
        {| mysqlInstances := delete dsn (mysqlInstances m);
           next_chan := next_chan m |}
      else
        {| mysqlInstances := <[dsn := mi]> (mysqlInstances m);
           next_chan := next_chan m |}
  | None => m
  end.

(** One turn of the loop of [Check]: the target is checked, and its
    subscribers are notified when it restarted.  The turn is recorded with
    the channels notified. *)
Definition Check_turn (now : string -> Z + error)
    (acc : gmap string MysqlInstance * list (string * gset chan))
    (entry : string * MysqlInstance)
    : gmap string MysqlInstance * list (string * gset chan) :=
  let '(dsn, mi) := entry in
  let '(restarted, mi) := CheckIfMysqlRestarted now dsn mi in
  (<[dsn := mi]> acc.1,
   (acc.2 ++ [(dsn, if restarted then Subscribers mi else ∅)])%list).

(** [func (m *Monitor) Check()]: the poll tick.  Returns, with the new
    state, the targets checked in this tick (in the order of the map
    iteration) and for each the channels that were sent a signal. *)
Definition Check (now : string -> Z + error) (m : Monitor)
    : Monitor * list (string * gset chan) :=
  let '(tbl, log) :=
    foldl (Check_turn now) (mysqlInstances m, [])
          (map_to_list (mysqlInstances m)) in
  ({| mysqlInstances := tbl; next_chan := next_chan m |}, log).

(** The operations that change a monitor. *)
Inductive op : Type :=
| OpAdd (now : string -> Z + error) (dsn : string)
| OpRemove (dsn : string) (c : chan)
| OpCheck (now : string -> Z + error).

Definition step (o : op) (m : Monitor) : Monitor :=
  match o with
  | OpAdd now dsn => (Add now dsn m).2
  | OpRemove dsn c => Remove dsn c m
  | OpCheck now => (Check now m).1
  end.

(** The states a monitor made by [NewMonitor] can be in. *)
Inductive reachable : Monitor -> Prop :=
| reachable_new : reachable NewMonitor
| reachable_step o m : reachable m -> reachable (step o m).

(** The targets the next poll tick checks. *)
Definition checked (now : string -> Z + error) (m : Monitor) : list string :=
  (Check now m).2.*1.

End monitor.

Section WithEnv.

Variable E : Env.

(** Modelled from the spec: the path of the backing file that
    [pct.Basedir] gives a configuration name, [<config dir>/<name>.conf]
    (package [pct] is not among the sources). *)
Definition Basedir_ConfigFile (name : string) : string :=
  Basedir_config E ++ "/" ++ name ++ ".conf".

(** Modelled from the spec: [pct.Basedir.WriteConfig], of package [pct], is
    not among the sources.  It writes the JSON encoding of the record to the
    backing file of that name; a write that fails is reported and leaves no
    file. *)
Definition Basedir_WriteConfig (name : string) (inst : InstanceConfig)
    (r : Repo) : option error * Repo :=
  let path := Basedir_ConfigFile name in
  let r := emit (WriteFile path) r in
  match write_error E path with
  | Some e => (Some e, r)
  | None => (None, set_disk (insert path inst) r)
  end.

(** [os.Remove]: fails when the file is not there, or when the environment
    refuses. *)
Definition os_Remove (path : string) (r : Repo) : option error * Repo :=
  let r := emit (RemoveFile path) r in
  match disk r !! path with
  | None => (Some (ExternalError "no such file or directory"), r)
  | Some _ =>
      match remove_error E path with
      | Some e => (Some e, r)
      | None => (None, set_disk (delete path) r)
      end
  end.

(** [func (r *Repo) add(it proto.InstanceConfig, writeToDisk bool) error] *)
Definition add (inst : InstanceConfig) (writeToDisk : bool) (r : Repo)
    : option error * Repo :=
  match it r !! UUID inst with
  | Some _ => (Some (DuplicateInstanceError (UUID inst)), r)
  | None =>
      if writeToDisk then
        match Basedir_WriteConfig (configName (UUID inst)) inst r with
        | (Some err, r) => (Some err, r)
        | (None, r) => (None, set_it (insert (UUID inst) inst) r)
        end
      else (None, set_it (insert (UUID inst) inst) r)
  end.

(** [func (r *Repo) Add]: [add] under the lock. *)
Definition Add (inst : InstanceConfig) (writeToDisk : bool) (r : Repo)
    : option error * Repo :=
  add inst writeToDisk r.

(** [func (r *Repo) get(id string) (it *proto.InstanceConfig, err error)].
    The function calls itself after a fetched record was added; [fuel]
    bounds the number of nested calls. *)
Fixpoint get (fuel : nat) (id : string) (r : Repo)
    : run Repo (option InstanceConfig * option error) :=
  match fuel with
  | O => OutOfFuel
  | S fuel' =>
      if negb (valid id) then
        Returned (None, Some (InvalidInstanceError id)) r
      else
        match it r !! id with
        | Some inst => Returned (Some inst, None) r
        | None =>
            let link := api_EntryLink E "insts" in
            if String.eqb link "" then
              Returned (None, Some (UnknownInstanceError id)) r
            else
              let url := link ++ "/" ++ id in
              let r := emit (HttpGet (api_ApiKey E) url) r in
              match api_Get E (api_ApiKey E) url with
              | (_, _, Some err) =>
                  Returned (None, Some (FailedToGetError id link err)) r
              | (code, data, None) =>
                  if negb (code =? 200)%Z then
                    Returned (None, Some (UnexpectedCodeError id link code)) r
                  else
                    match data with
                    | None => Returned (None, Some NoDataError) r
                    | Some data =>
                        match json_Unmarshal data with
                        | (_, Some err) =>
                            Returned (None, Some (UnmarshalAPIError err)) r
                        | (None, None) => Panicked r      (* *it, it == nil *)
                        | (Some fetched, None) =>
                            match add fetched true r with
                            | (Some err, r) =>
                                Returned (None, Some (FailedToAddError err)) r
                            | (None, r) => get fuel' id r
                            end
                        end
                    end
              end
        end
  end.

(** [func (r *Repo) Get]: [get] under the lock. *)
Definition Get (fuel : nat) (id : string) (r : Repo)
    : run Repo (option InstanceConfig * option error) :=
  get fuel id r.

(** [func (r *Repo) Remove(id string) error] *)
Definition Remove (id : string) (r : Repo) : option error * Repo :=
  if negb (valid id) then (Some (InvalidInstanceError id), r)
  else
    match it r !! id with
    | None => (Some (UnknownInstanceError id), r)
    | Some _ =>
        let file := configDir E ++ "/instance-" ++ id ++ ".conf" in
        match os_Remove file r with
        | (Some err, r) => (Some err, r)
        | (None, r) => (None, set_it (delete id) r)
        end
    end.

(** [func (r *Repo) List() []proto.InstanceConfig]: the order is that of a
    Go map iteration, which is not fixed; [map_to_list] gives one. *)
Definition List (r : Repo) : list InstanceConfig := (map_to_list (it r)).*2.

Definition isMySQLConfig (inst : InstanceConfig) : bool :=
  String.eqb (Type_ inst) "MySQL" && String.eqb (Prefix inst) "mysql".

Definition isOSConfig (inst : InstanceConfig) : bool :=
  String.eqb (Type_ inst) "OS" && String.eqb (Prefix inst) "os".

(** ** instance.Manager *)

(** [proto.Cmd] and [proto.Reply], with the fields this code uses.  The
    reply's [Error] is the error [cmd.Reply] was given, [None] for nil. *)
Record Cmd : Type := {
  Cmd_ : string;       (* the command name, field Cmd *)
  Data : body
}.

Record Reply : Type := {
  Reply_Data : option InstanceConfig;
  Reply_Error : option error
}.

Definition cmd_Reply (data : option InstanceConfig) (err : option error) : Reply :=
  {| Reply_Data := data; Reply_Error := err |}.

(** The manager: its registry, the restart monitor behind the [mrms.Monitor]
    interface, and the channels it got from the monitor, by DSN. *)
Record Manager : Type := {
  repo : Repo;
  mrm : monitor.Monitor;
  mrmChans : gmap string monitor.chan
}.

Definition set_repo (r : Repo) (m : Manager) : Manager :=
  {| repo := r; mrm := mrm m; mrmChans := mrmChans m |}.

Definition set_mrm (mon : monitor.Monitor) (m : Manager) : Manager :=
  {| repo := repo m; mrm := mon; mrmChans := mrmChans m |}.

Definition set_mrmChans (dsn : string) (c : monitor.chan) (m : Manager) : Manager :=
  {| repo := repo m; mrm := mrm m; mrmChans := <[dsn := c]> (mrmChans m) |}.

(** [m.mrmChans[dsn]]: the nil channel when the key is absent. *)
Definition mrmChans_get (m : Manager) (dsn : string) : monitor.chan :=
  default None (mrmChans m !! dsn).

(** [func GetMySQLInfo(it *proto.InstanceConfig) error].  The three
    properties are written into the map [it.Properties] itself, so that the
    record returned here is what every holder of that map sees afterwards;
    writing into a nil map panics.  The columns of the query are system
    variables of the server and are taken to be non-NULL. *)
Definition GetMySQLInfo (inst : InstanceConfig) (w : Repo)
    : run Repo (option error * InstanceConfig) :=
  let w := emit (MySQLConnect (prop_get inst "dsn")) w in
  match mysql_info E (prop_get inst "dsn") with
  | inr err => Returned (Some err, inst) w
  | inl (hostname, distro, version) =>
      match Properties inst with
      | None => Panicked w
      | Some ps =>
          Returned
            (None,
             {| UUID := UUID inst; Type_ := Type_ inst; Prefix := Prefix inst;
                Properties :=
                  Some (<["version" := version]>
                          (<["distro" := distro]>
                             (<["hostname" := hostname]> ps))) |})
            w
      end
  end.

(** [func (m *Manager) handleGetInfo(it *proto.InstanceConfig) error] *)
Definition handleGetInfo (inst : InstanceConfig) (w : Repo)
    : run Repo (option error * InstanceConfig) :=
  if negb (isMySQLConfig inst) then
    Returned (Some (DontKnowInfoError (UUID inst)), inst) w
  else GetMySQLInfo inst w.

(** [func (m *Manager) pushInstanceInfo(instance *proto.InstanceConfig) error]
    ([json.Marshal] of this record type has no failing case). *)
Definition pushInstanceInfo (inst : InstanceConfig) (w : Repo)
    : option error * Repo :=
  let uri := api_EntryLink E "insts" ++ "/" ++ UUID inst in
  let w := emit (HttpPut (api_ApiKey E) uri) w in
  match api_Put E (api_ApiKey E) uri inst with
  | (_, Some err) => (Some err, w)
  | (Some code, None) =>
      if negb (code =? 200)%Z then (Some (FailedToPutError code), w)
      else (None, w)
  | (None, None) => (None, w)
  end.

(** [Handle], [case "Add"]. *)
Definition Handle_Add (fuel : nat) (cmd_it : option InstanceConfig)
    (m : Manager) : run Manager Reply :=
  match cmd_it with
  | None => Panicked m                                    (* *it, it == nil *)
  | Some inst =>
      match Add inst true (repo m) with
      | (Some err, r) => Returned (cmd_Reply None (Some err)) (set_repo r m)
      | (None, r) =>
          match Get fuel (UUID inst) r with
          | OutOfFuel => OutOfFuel
          | Panicked r => Panicked (set_repo r m)
          | Returned (_, Some err) r =>
              Returned (cmd_Reply None None) (set_repo r m)
          | Returned (None, None) r => Panicked (set_repo r m)
          | Returned (Some iit, None) r =>
              let m := set_repo r m in
              if isMySQLConfig iit then
                match prop_lookup iit "dsn" with
                | None => Returned (cmd_Reply None None) m
                | Some dsn =>
                    match monitor.Add (mysql_uptime E) dsn (mrm m) with
                    | ((_, Some err), mon) =>
                        Returned (cmd_Reply None None) (set_mrm mon m)
                    | ((ch, None), mon) =>
                        let m := set_mrmChans dsn ch (set_mrm mon m) in
                        match GetMySQLInfo iit (repo m) with
                        | OutOfFuel => OutOfFuel
                        | Panicked r => Panicked (set_repo r m)
                        | Returned (Some err, _) r =>
                            Returned (cmd_Reply None None) (set_repo r m)
                        | Returned (None, iit) r =>
                            (* the registry's entry holds the same map *)
                            let r := set_it (insert (UUID iit) iit) r in
                            let '(_, r) := pushInstanceInfo iit r in
                            Returned (cmd_Reply None None) (set_repo r m)
                        end
                    end
                end
              else Returned (cmd_Reply None None) m
          end
      end
  end.

(** [Handle], [case "Remove"]. *)
Definition Handle_Remove (fuel : nat) (cmd_it : option InstanceConfig)
    (m : Manager) : run Manager Reply :=
  match cmd_it with
  | None => Panicked m                                    (* it.UUID, it == nil *)
  | Some inst =>
      match Get fuel (UUID inst) (repo m) with
      | OutOfFuel => OutOfFuel
      | Panicked r => Panicked (set_repo r m)
      | Returned (iit, err) r =>
          let m := set_repo r m in
          let unsubscribed : option Manager :=
            match err with
            | Some _ => Some m                            (* logged *)
            | None =>
                match iit with
                | None => None                            (* inst.Type, inst == nil *)
                | Some i =>
                    if isMySQLConfig i then
                      match prop_lookup i "dns" with
                      | Some dns =>
                          Some (set_mrm
                                  (monitor.Remove dns (mrmChans_get m dns) (mrm m))
                                  m)
                      | None => Some m
                      end
                    else Some m
                end
            end in
          match unsubscribed with
          | None => Panicked m
          | Some m =>
              match iit with
              | None => Panicked m                        (* iit.UUID, iit == nil *)
              | Some i =>
                  let '(err, r) := Remove (UUID i) (repo m) in
                  Returned (cmd_Reply None err) (set_repo r m)
              end
          end
      end
  end.

(** [Handle], [case "GetInfo"]. *)
Definition Handle_GetInfo (cmd_it : option InstanceConfig) (m : Manager)
    : run Manager Reply :=
  match cmd_it with
  | None => Panicked m                                    (* inst.Type, inst == nil *)
  | Some inst =>
      match handleGetInfo inst (repo m) with
      | OutOfFuel => OutOfFuel
      | Panicked r => Panicked (set_repo r m)
      | Returned (err, inst) r =>
          Returned (cmd_Reply (Some inst) err) (set_repo r m)
      end
  end.

(** [func (m *Manager) Handle(cmd *proto.Cmd) *proto.Reply] *)
Definition Handle (fuel : nat) (cmd : Cmd) (m : Manager) : run Manager Reply :=
  match json_Unmarshal (Data cmd) with
  | (_, Some err) => Returned (cmd_Reply None (Some err)) m
  | (cmd_it, None) =>
      if String.eqb (Cmd_ cmd) "Add" then Handle_Add fuel cmd_it m
      else if String.eqb (Cmd_ cmd) "Remove" then Handle_Remove fuel cmd_it m
      else if String.eqb (Cmd_ cmd) "GetInfo" then Handle_GetInfo cmd_it m
      else Returned (cmd_Reply None (Some (UnknownCmdError (Cmd_ cmd)))) m
  end.

End WithEnv.

(** ** Vocabulary of the statements *)

(** The number of requests [GET] in a trace. *)
Definition is_fetch (e : io_event) : bool :=
  match e with HttpGet _ _ => true | _ => false end.

Definition fetches (tr : list io_event) : nat :=
  length (List.filter is_fetch tr).

(** The URL [Repo.get] asks for an id, and the answer of the remote API. *)
Definition instance_url (E : Env) (id : string) : string :=
  api_EntryLink E "insts" ++ "/" ++ id.

Definition remote_answer (E : Env) (id : string)
    : Z * option body * option error :=
  api_Get E (api_ApiKey E) (instance_url E id).

(** The 'insts' link is configured and the keyed GET for [<link>/<id>]
    answers 200 with a body that decodes to [fetched]. *)
Definition serves (E : Env) (id : string) (fetched : InstanceConfig) : Prop :=
  api_EntryLink E "insts" ≠ "" ∧
  remote_answer E id = (200%Z, Some (JSONObject fetched), None).

(** The backing file of a record. *)
Definition backing_file (E : Env) (id : string) : string :=
  Basedir_ConfigFile E (configName id).

(** What "fallback fetch and cache" promises of [Get id] in [r] when the
    remote API serves [fetched]: the record is returned, it is in the map
    and in its backing file, and a second [Get] returns it again from a
    state that it leaves as it is (its trace included: no request). *)
Definition fetched_and_cached (E : Env) (fuel : nat) (id : string) (r : Repo)
    (fetched : InstanceConfig) : Prop :=
  ∃ r', Get E fuel id r = Returned (Some fetched, None) r' ∧
        it r' !! UUID fetched = Some fetched ∧
        disk r' !! backing_file E (UUID fetched) = Some fetched ∧
        Get E fuel id r' = Returned (Some fetched, None) r'.

(** The state in which [get] recurses: the request was sent, the fetched
    record written to its backing file and put into the map. *)
Definition after_fetch (E : Env) (id : string) (fetched : InstanceConfig)
    (r : Repo) : Repo :=
  (add E fetched true (emit (HttpGet (api_ApiKey E) (instance_url E id)) r)).2.

(** The state a run ends in. *)
Definition final {S A : Type} (o : run S A) : option S :=
  match o with
  | Returned _ s => Some s
  | Panicked s => Some s
  | OutOfFuel => None
  end.

(** Every watched target has a subscriber. *)
Definition subscribed (m : monitor.Monitor) : Prop :=
  ∀ dsn mi, monitor.mysqlInstances m !! dsn = Some mi →
            monitor.Subscribers mi ≠ ∅.

(** ** Sample inputs *)

Module Samples.

Definition idA : string := "aaaaaaaaaaaaaaaaaaaaaaaaaaaaaaaa".
Definition idB : string := "bbbbbbbbbbbbbbbbbbbbbbbbbbbbbbbb".

Definition mysqlA : InstanceConfig :=
  {| UUID := idA; Type_ := "MySQL"; Prefix := "mysql";
     Properties := Some {[ "dsn" := "test:test@localhost/db1" ]} |}.

Definition mysqlB : InstanceConfig :=
  {| UUID := idB; Type_ := "MySQL"; Prefix := "mysql";
     Properties := Some {[ "dsn" := "test:test@localhost/db2" ]} |}.

(** A MySQL record without the "dsn" property. *)
Definition mysqlNoDSN : InstanceConfig :=
  {| UUID := idA; Type_ := "MySQL"; Prefix := "mysql"; Properties := Some ∅ |}.

Definition osA : InstanceConfig :=
  {| UUID := idA; Type_ := "OS"; Prefix := "os"; Properties := None |}.

(** A record with a malformed id. *)
Definition malformed : InstanceConfig :=
  {| UUID := "zz"; Type_ := "MySQL"; Prefix := "mysql"; Properties := None |}.

(** No 'insts' link, healthy disk, a MySQL server that answers. *)
Definition offline : Env :=
  {| configDir := "/cfg"; Basedir_config := "/cfg";
     api_EntryLink := λ _, ""; api_ApiKey := "123";
     api_Get := λ _ _, (0%Z, None, Some (ExternalError "no route to host"));
     api_Put := λ _ _ _, (None, Some (ExternalError "no route to host"));
     write_error := λ _, None; remove_error := λ _, None;
     mysql_info := λ _, inl ("db1", "MySQL Community Server", "5.6.24");
     mysql_uptime := λ _, inl 1000%Z |}.

(** A remote API that answers every GET with 200 and the given record. *)
Definition serving (fetched : InstanceConfig) : Env :=
  {| configDir := "/cfg"; Basedir_config := "/cfg";
     api_EntryLink := λ _, "http://localhost/insts"; api_ApiKey := "123";
     api_Get := λ _ _, (200%Z, Some (JSONObject fetched), None);
     api_Put := λ _ _ _, (Some 200%Z, None);
     write_error := λ _, None; remove_error := λ _, None;
     mysql_info := λ _, inl ("db1", "MySQL Community Server", "5.6.24");
     mysql_uptime := λ _, inl 1000%Z |}.

(** The same, on a disk that refuses every write. *)
Definition serving_readonly (fetched : InstanceConfig) : Env :=
  {| configDir := "/cfg"; Basedir_config := "/cfg";
     api_EntryLink := λ _, "http://localhost/insts"; api_ApiKey := "123";
     api_Get := λ _ _, (200%Z, Some (JSONObject fetched), None);
     api_Put := λ _ _ _, (Some 200%Z, None);
     write_error := λ _, Some (ExternalError "permission denied");
     remove_error := λ _, None;
     mysql_info := λ _, inl ("db1", "MySQL Community Server", "5.6.24");
     mysql_uptime := λ _, inl 1000%Z |}.

Definition empty_repo : Repo := NewRepo ∅.

(** A monitor that watches one target for one subscriber. *)
Definition watching : monitor.Monitor :=
  monitor.step (monitor.OpAdd (λ _, inl 1000%Z) "test:test@localhost/db1")
    monitor.NewMonitor.

Definition empty_manager : Manager :=
  {| repo := empty_repo; mrm := monitor.NewMonitor; mrmChans := ∅ |}.

Definition command (name : string) (inst : InstanceConfig) : Cmd :=
  {| Cmd_ := name; Data := JSONObject inst |}.

End Samples.

(** * The rest of the three components *)

(** ** Library functions used by Repo.Init and Manager.Status *)

(** The bytes [/] and [-]. *)
Definition slash : Ascii.ascii := Ascii.ascii_of_nat 47.
Definition dash : Ascii.ascii := Ascii.ascii_of_nat 45.

(** [strings.Split(s, sep)] for a separator of one byte: the pieces of [s]
    between the separators, one more than there are separators. *)
Fixpoint strings_Split (sep : Ascii.ascii) (s : string) : list string :=
  match s with
  | EmptyString => [EmptyString]
  | String c s' =>
      if Ascii.eqb c sep then EmptyString :: strings_Split sep s'
      else
        match strings_Split sep s' with
        | p :: ps => String c p :: ps
        | [] => [String c EmptyString]
        end
  end.

(** [strings.HasSuffix(s, suffix)]:
    [len(s) >= len(suffix) && s[len(s)-len(suffix):] == suffix]. *)
Definition strings_HasSuffix (s suffix : string) : bool :=
  (String.length suffix <=? String.length s)%nat &&
  String.eqb
    (String.substring (String.length s - String.length suffix)
       (String.length suffix) s)
    suffix.

(** [strings.TrimSuffix(s, suffix)]: [s[:len(s)-len(suffix)]] when [s] ends
    with [suffix], and [s] otherwise. *)
Definition strings_TrimSuffix (s suffix : string) : string :=
  if strings_HasSuffix s suffix
  then String.substring 0 (String.length s - String.length suffix) s
  else s.

(** [filepath.Base(path)] on a system whose separator is [/]: ["."] for the
    empty path; otherwise the last element of the path once trailing
    slashes are removed, and ["/"] when the path is made of slashes only. *)
Definition filepath_Base (path : string) : string :=
  if String.eqb path "" then "."
  else
    default "/"
      (last (List.filter (λ p, negb (String.eqb p ""))
               (strings_Split slash path))).

(** [strings.Join(elems, sep)] *)
Fixpoint strings_Join (elems : list string) (sep : string) : string :=
  match elems with
  | [] => ""
  | [e] => e
  | e :: rest => e ++ sep ++ strings_Join rest sep
  end.

(** ** instance.Repo: Init *)

(** The errors that [loadInstances] builds, one constructor per format. *)
Inductive load_error : Type :=
| GlobError (cause : error)
    (* the error of filepath.Glob, returned as it is *)
| InvalidFileNameError (file : string)
    (* "Invalid instance file name: " + file, at both sites *)
| FileError (file : string) (cause : error)
    (* "%s: %v", for a failed read and for a failed Add *)
| CouldNotUnmarshalError (file : string) (cause : error).
    (* "Could not unmarshal file %s: %v" *)

(** [ioutil.ReadFile] on the files of the model: the bytes of a file are
    the JSON encoding of the record it holds. *)
Definition ReadFile (r : Repo) (path : string) : body + error :=
  match disk r !! path with
  | Some inst => inl (JSONObject inst)
  | None => inr (ExternalError "no such file or directory")
  end.

(** Every record of the map is stored under its own UUID. *)
Definition keyed (r : Repo) : Prop :=
  ∀ id inst, it r !! id = Some inst → UUID inst = id.

(** Every channel subscribed in the monitor was made by [Add]: it is not
    nil and its reference is below the next one to be handed out. *)
Definition allocated (m : monitor.Monitor) : Prop :=
  ∀ dsn mi c, monitor.mysqlInstances m !! dsn = Some mi →
              c ∈ monitor.Subscribers mi →
              ∃ p, c = Some p ∧ (p < monitor.next_chan m)%positive.

(** [inst'] is [inst] up to the three properties that [GetMySQLInfo]
    writes. *)
Definition refreshes (inst inst' : InstanceConfig) : Prop :=
  UUID inst' = UUID inst ∧ Type_ inst' = Type_ inst ∧
  Prefix inst' = Prefix inst ∧
  ∀ k, k ≠ "hostname" → k ≠ "distro" → k ≠ "version" →
       prop_lookup inst' k = prop_lookup inst k.

(** The error of [mrmMySQL]: built in place, or handed on. *)
Inductive mrm_error : Type :=
| MissingDSNError (uuid : string)
    (* "Missing DSN in added MySQL instance " + inst.UUID *)
| MrmError (cause : error).

Section MoreWithEnv.

Variable E : Env.

(** One turn of the loop of [loadInstances].  [read] is what
    [ioutil.ReadFile] answers. *)
Definition loadFile (read : string -> body + error) (file : string)
    (r : Repo) : run Repo (option load_error) :=
  let part :=
    strings_Split dash
      (strings_TrimSuffix (filepath_Base file) ".conf") in
  if negb (length part =? 2)%nat then
    Returned (Some (InvalidFileNameError file)) r
  else
    let id := default "" (part !! 1%nat) in
    if negb (valid id) then Returned (Some (InvalidFileNameError file)) r
    else
      match read file with
      | inr err => Returned (Some (FileError file err)) r
      | inl data =>
          match json_Unmarshal data with
          | (_, Some err) =>
              Returned (Some (CouldNotUnmarshalError file err)) r
          | (None, None) => Panicked r                    (* *it, it == nil *)
          | (Some inst, None) =>
              match Add E inst false r with
              | (Some err, r) => Returned (Some (FileError file err)) r
              | (None, r) => Returned None r
              end
          end
      end.

(** The loop of [loadInstances] over the files that matched. *)
Fixpoint loadFiles (read : string -> body + error) (files : list string)
    (r : Repo) : run Repo (option load_error) :=
  match files with
  | [] => Returned None r
  | file :: files =>
      match loadFile read file r with
      | Returned None r => loadFiles read files r
      | stopped => stopped
      end
  end.

(** [func (r *Repo) loadInstances() error].  [glob] is what
    [filepath.Glob(r.configDir + "/instance-*.conf")] answers. *)
Definition loadInstances (glob : list string + error)
    (read : string -> body + error) (r : Repo) : run Repo (option load_error) :=
  match glob with
  | inr err => Returned (Some (GlobError err)) r
  | inl files => loadFiles read files r
  end.

(** [func (r *Repo) Init() error] *)
Definition Init (glob : list string + error) (read : string -> body + error)
    (r : Repo) : run Repo (option load_error) :=
  loadInstances glob read r.

(** ** instance.Manager: the MySQL instances and the monitor *)

(** [func onlyMySQLInsts(slice []proto.InstanceConfig) *[]proto.InstanceConfig] *)
Definition onlyMySQLInsts (slice : list InstanceConfig) : list InstanceConfig :=
  foldl (λ justMySQL inst,
           if isMySQLConfig inst then (justMySQL ++ [inst])%list else justMySQL)
    [] slice.

(** [func (m *Manager) GetMySQLInstances() []proto.InstanceConfig] *)
Definition GetMySQLInstances (m : Manager) : list InstanceConfig :=
  onlyMySQLInsts (List (repo m)).

(** [func (m *Manager) mrmMySQL(inst *proto.InstanceConfig) error].  The
    record is returned as [GetMySQLInfo] left it. *)
Definition mrmMySQL (inst : InstanceConfig) (m : Manager)
    : run Manager (option mrm_error * InstanceConfig) :=
  match prop_lookup inst "dns" with
  | None => Returned (Some (MissingDSNError (UUID inst)), inst) m
  | Some itDSN =>
      match monitor.Add (mysql_uptime E) itDSN (mrm m) with
      | ((_, Some err), mon) =>
          Returned (Some (MrmError err), inst) (set_mrm mon m)
      | ((ch, None), mon) =>
          let m := set_mrmChans itDSN ch (set_mrm mon m) in
          match GetMySQLInfo E inst (repo m) with
          | OutOfFuel => OutOfFuel
          | Panicked r => Panicked (set_repo r m)
          | Returned (_, inst) r =>                       (* a failure is logged *)
              match pushInstanceInfo E inst r with
              | (Some err, r) =>
                  Returned (Some (MrmError err), inst) (set_repo r m)
              | (None, r) => Returned (None, inst) (set_repo r m)
              end
          end
      end
  end.

(** [func (m *Manager) mrmAddedMySQL(added *[]proto.InstanceConfig)]: the
    errors are logged.  The records are returned as they are seen after the
    call by whoever holds their [Properties] maps. *)
Fixpoint mrmAddedMySQL (added : list InstanceConfig) (m : Manager)
    : run Manager (list InstanceConfig) :=
  match added with
  | [] => Returned [] m
  | addIt :: added =>
      match mrmMySQL addIt m with
      | OutOfFuel => OutOfFuel
      | Panicked m => Panicked m
      | Returned (_, addIt) m =>
          match mrmAddedMySQL added m with
          | Returned added m => Returned (addIt :: added) m
          | stopped => stopped
          end
      end
  end.

(** [func (m *Manager) mrmDeletedMySQL(deleted *[]proto.InstanceConfig)] *)
Fixpoint mrmDeletedMySQL (deleted : list InstanceConfig) (m : Manager)
    : Manager :=
  match deleted with
  | [] => m
  | dltIt :: deleted =>
      match prop_lookup dltIt "dns" with
      | None => mrmDeletedMySQL deleted m                 (* logged *)
      | Some itDSN =>
          mrmDeletedMySQL deleted
            (set_mrm (monitor.Remove itDSN (mrmChans_get m itDSN) (mrm m)) m)
      end
  end.

(** [func (m *Manager) mrmUpdatedMySQL(updated *[]proto.InstanceConfig)] *)
Definition mrmUpdatedMySQL (updated : list InstanceConfig) (m : Manager)
    : run Manager (list InstanceConfig) :=
  mrmAddedMySQL updated (mrmDeletedMySQL updated m).

(** The slice [uuids] that [Manager.Status] builds from [m.repo.List()] and
    joins with spaces for the status of "instance-repo":
    [make([]string, len(list))] followed by one [append] per record.  (The
    status cell of package [pct], which [Status] writes the string to and
    returns, is not among the sources.) *)
Definition Status_uuids (m : Manager) : list string :=
  foldl (λ uuids inst, (uuids ++ [UUID inst])%list)
    (replicate (length (List (repo m))) "") (List (repo m)).

Definition Status_instance_repo (m : Manager) : string :=
  strings_Join (Status_uuids m) " ".

End MoreWithEnv.

(** ** More sample inputs *)

Module Cases.

(** The same directory for [Repo.configDir] and [pct.Basedir], a healthy
    disk, no 'insts' link, and a MySQL server that does not answer. *)
Definition unreachable : Env :=
  {| configDir := "/cfg"; Basedir_config := "/cfg";
     api_EntryLink := λ _, ""; api_ApiKey := "123";
     api_Get := λ _ _, (0%Z, None, Some (ExternalError "no route to host"));
     api_Put := λ _ _ _, (None, Some (ExternalError "no route to host"));
     write_error := λ _, None; remove_error := λ _, None;
     mysql_info := λ _, inr (ExternalError "connection refused");
     mysql_uptime := λ _, inr (ExternalError "connection refused") |}.


(** The repository after [Add(mysqlA, true)] on an empty one. *)
Definition stored : Repo :=
  (Add Samples.offline Samples.mysqlA true Samples.empty_repo).2.

(** The manager after the command Add of [mysqlA]. *)
Definition added : Manager :=
  match Handle Samples.offline 1 (Samples.command "Add" Samples.mysqlA)
          Samples.empty_manager with
  | Returned _ m => m
  | _ => Samples.empty_manager
  end.

(** A monitor that watches one target for two subscribers. *)
Definition watching_twice : monitor.Monitor :=
  monitor.step (monitor.OpAdd (λ _, inl 1000%Z) "test:test@localhost/db1")
    Samples.watching.

(** The command with the payload [null]. *)
Definition null_command (name : string) : Cmd :=
  {| Cmd_ := name; Data := JSONNull |}.

End Cases.

(** * Properties *)

(** ** The id format *)

Lemma xdigits_spec (n : nat) (s : string) :
  xdigits n s = Some EmptyString ↔
  String.length s = n ∧ forallb xdigit (String.list_ascii_of_string s) = true.
Proof.
  revert s; induction n as [|n IH]; intros s; simpl.
  - destruct s; simpl; split.
    + done.
    + done.
    + intros [=].
    + intros [[=] _].
  - destruct s as [|c s]; simpl.
    + split; [intros [=] | intros [[=] _]].
    + destruct (xdigit c); simpl.
      * rewrite IH. split; intros [H1 H2]; split; congruence.
      * split; [intros [=] | intros [_ [=]]].
Qed.

(** [valid] accepts exactly the strings of 32 hexadecimal digits. *)
Lemma valid_spec (id : string) :
  valid id = true ↔
  String.length id = 32 ∧ forallb xdigit (String.list_ascii_of_string id) = true.
Proof.
  rewrite <- xdigits_spec. unfold valid.
  destruct (xdigits 32 id) as [[|c s]|]; split; congruence.
Qed.

Lemma valid_false (id : string) :
  ¬ (String.length id = 32 ∧
     forallb xdigit (String.list_ascii_of_string id) = true) →
  valid id = false.
Proof.
  intros H. destruct (valid id) eqn:Hv; [|done].
  exfalso. apply H. by apply valid_spec.
Qed.

Example valid_lower : valid "31dd3b7b602849f8871fd3e7acc8c2e3" = true.
Proof. reflexivity. Qed.

Example valid_upper : valid "31DD3B7B602849F8871FD3E7ACC8C2E3" = true.
Proof. reflexivity. Qed.

Example valid_not_hex : valid "31dd3b7b602849f8871fd3e7acc8c2eg" = false.
Proof. reflexivity. Qed.

Example valid_too_short : valid "31dd3b7b602849f8871fd3e7acc8c2e" = false.
Proof. reflexivity. Qed.

Example valid_too_long : valid "31dd3b7b602849f8871fd3e7acc8c2e3a" = false.
Proof. reflexivity. Qed.

(** ** Repo.add and Repo.Add *)

Lemma add_inv (E : Env) (inst : InstanceConfig) (persist : bool) (r r' : Repo)
    (err : option error) :
  add E inst persist r = (err, r') →
  (∃ old, it r !! UUID inst = Some old ∧
          err = Some (DuplicateInstanceError (UUID inst)) ∧ r' = r) ∨
  (∃ e, it r !! UUID inst = None ∧ persist = true ∧
        write_error E (backing_file E (UUID inst)) = Some e ∧
        err = Some e ∧
        r' = emit (WriteFile (backing_file E (UUID inst))) r) ∨
  (it r !! UUID inst = None ∧ persist = true ∧
   write_error E (backing_file E (UUID inst)) = None ∧ err = None ∧
   r' = set_it (insert (UUID inst) inst)
          (set_disk (insert (backing_file E (UUID inst)) inst)
             (emit (WriteFile (backing_file E (UUID inst))) r))) ∨
  (it r !! UUID inst = None ∧ persist = false ∧ err = None ∧
   r' = set_it (insert (UUID inst) inst) r).
Proof.
  unfold add, Basedir_WriteConfig, backing_file.
  destruct (it r !! UUID inst) as [old|] eqn:Hl.
  - intros [= <- <-]. left. eauto.
  - destruct persist.
    + destruct (write_error E _) as [e|] eqn:Hw; intros [= <- <-].
      * right; left. eauto 10.
      * right; right; left. eauto 10.
    + intros [= <- <-]. right; right; right. eauto.
Qed.

(** C7: a malformed id is refused by [Get] and by [Remove] with the
    Invalid-id error, and the repository is left exactly as it was: the
    map, the files, and the trace of file and network requests. *)
Theorem malformed_id_is_refused_first (E : Env) (fuel : nat) (id : string)
    (r : Repo) :
  ¬ (String.length id = 32 ∧
     forallb xdigit (String.list_ascii_of_string id) = true) →
  Get E (S fuel) id r = Returned (None, Some (InvalidInstanceError id)) r ∧
  Remove E id r = (Some (InvalidInstanceError id), r).
Proof.
  intros Hbad. apply valid_false in Hbad.
  unfold Get, Remove; simpl. by rewrite Hbad.
Qed.

Lemma malformed_id_is_refused_first_witness :
  Get Samples.offline 1 "zz" Samples.empty_repo
    = Returned (None, Some (InvalidInstanceError "zz")) Samples.empty_repo ∧
  Remove Samples.offline "zz" Samples.empty_repo
    = (Some (InvalidInstanceError "zz"), Samples.empty_repo).
Proof.
  apply (malformed_id_is_refused_first Samples.offline 0 "zz" Samples.empty_repo).
  simpl. intros [H _]. lia.
Defined.

(** C6: adding a record whose id is in the map fails with the
    Duplicate-instance error whatever the persist flag, and leaves the
    repository as it was; in particular nothing is written. *)
Theorem Add_duplicate (E : Env) (inst : InstanceConfig) (persist : bool)
    (r : Repo) :
  is_Some (it r !! UUID inst) →
  Add E inst persist r = (Some (DuplicateInstanceError (UUID inst)), r) ∧
  add E inst persist r = (Some (DuplicateInstanceError (UUID inst)), r).
Proof.
  intros [old Hold]. unfold Add, add. by rewrite Hold.
Qed.

Lemma Add_duplicate_witness :
  let r := (Add Samples.offline Samples.mysqlA false Samples.empty_repo).2 in
  Add Samples.offline Samples.mysqlA true r
    = (Some (DuplicateInstanceError Samples.idA), r) ∧
  add Samples.offline Samples.mysqlA true r
    = (Some (DuplicateInstanceError Samples.idA), r).
Proof.
  apply (Add_duplicate Samples.offline Samples.mysqlA true).
  by exists Samples.mysqlA.
Defined.

(** C5: when [Add] returns an error, the map and the files are what they
    were before the call: the failed call made no entry for the record's
    id, and left no backing file that was not there. *)
Theorem Add_error_changes_nothing (E : Env) (inst : InstanceConfig)
    (persist : bool) (r r' : Repo) (err : error) :
  Add E inst persist r = (Some err, r') →
  it r' = it r ∧ disk r' = disk r ∧
  (it r !! UUID inst = None → it r' !! UUID inst = None) ∧
  (disk r !! backing_file E (UUID inst) = None →
   disk r' !! backing_file E (UUID inst) = None) ∧
  (err = DuplicateInstanceError (UUID inst) ∧ is_Some (it r !! UUID inst) ∨
   persist = true ∧ write_error E (backing_file E (UUID inst)) = Some err).
Proof.
  intros H. apply add_inv in H.
  destruct H as [(old & Hl & [= ->] & ->) | [(e & Hl & -> & Hw & [= ->] & ->)
                | [(_ & _ & _ & [=] & _) | (_ & _ & [=] & _)]]].
  - repeat split; eauto.
  - simpl. repeat split; eauto.
Qed.

Lemma Add_error_changes_nothing_witness :
  let E := Samples.serving_readonly Samples.mysqlA in
  let r := Samples.empty_repo in
  let r' := (Add E Samples.mysqlA true r).2 in
  it r' = it r ∧ disk r' = disk r ∧
  (it r !! Samples.idA = None → it r' !! Samples.idA = None) ∧
  (disk r !! backing_file E Samples.idA = None →
   disk r' !! backing_file E Samples.idA = None) ∧
  (ExternalError "permission denied" = DuplicateInstanceError Samples.idA ∧
   is_Some (it r !! Samples.idA) ∨
   true = true ∧
   write_error E (backing_file E Samples.idA)
     = Some (ExternalError "permission denied")).
Proof.
  apply (Add_error_changes_nothing (Samples.serving_readonly Samples.mysqlA)
           Samples.mysqlA true Samples.empty_repo).
  reflexivity.
Defined.

(** ** Repo.get: one call, and the recursion *)

Lemma fetches_emit (e : io_event) (r : Repo) :
  fetches (trace (emit e r))
  = (fetches (trace r) + (if is_fetch e then 1 else 0))%nat.
Proof.
  unfold fetches, emit; simpl. rewrite List.filter_app, length_app; simpl.
  by destruct (is_fetch e).
Qed.

Lemma eqb_empty_false (s : string) : s ≠ "" → String.eqb s "" = false.
Proof. intros H. by apply String.eqb_neq. Qed.

Lemma get_hit (E : Env) (fuel : nat) (id : string) (r : Repo)
    (inst : InstanceConfig) :
  valid id = true → it r !! id = Some inst →
  get E (S fuel) id r = Returned (Some inst, None) r.
Proof. intros Hv Hl. simpl. by rewrite Hv, Hl. Qed.

(** A miss on an id that the remote API serves: the record is added, and
    [get] calls itself when the addition succeeded. *)
Lemma get_miss_served (E : Env) (fuel : nat) (id : string) (r : Repo)
    (fetched : InstanceConfig) :
  valid id = true → it r !! id = None → serves E id fetched →
  get E (S fuel) id r =
    match add E fetched true
            (emit (HttpGet (api_ApiKey E) (instance_url E id)) r) with
    | (Some err, r') => Returned (None, Some (FailedToAddError err)) r'
    | (None, r') => get E fuel id r'
    end.
Proof.
  intros Hv Hl [Hlink Hans]. unfold remote_answer, instance_url in *.
  simpl. rewrite Hv, Hl; simpl. rewrite (eqb_empty_false _ Hlink).
  rewrite Hans; simpl. reflexivity.
Qed.

(** What one call of [get] does, whatever fuel is left for the nested call:
    it returns or panics after at most one request, or it is a miss on a
    served id whose record was added, and then it is the nested call. *)
Lemma get_call (E : Env) (id : string) (r : Repo) :
  (∃ r', ∀ fuel,
         final (get E (S fuel) id r) = Some r' ∧
         get E (S fuel) id r = get E 1 id r ∧
         (fetches (trace r') ≤ S (fetches (trace r)))%nat) ∨
  (∃ fetched, valid id = true ∧ it r !! id = None ∧ serves E id fetched ∧
         it r !! UUID fetched = None ∧
         write_error E (backing_file E (UUID fetched)) = None ∧
         ∀ fuel, get E (S fuel) id r
                 = get E fuel id (after_fetch E id fetched r)).
Proof.
  destruct (valid id) eqn:Hv; cycle 1.
  { left. exists r. intros fuel. simpl. rewrite Hv. simpl.
    split_and!; [done..|lia]. }
  destruct (it r !! id) as [inst|] eqn:Hl.
  { left. exists r. intros fuel. rewrite !(get_hit E _ id r inst) by done.
    simpl. split_and!; [done..|lia]. }
  destruct (decide (api_EntryLink E "insts" = "")) as [Hlink|Hlink].
  { left. exists r. intros fuel. simpl. rewrite Hv, Hl, Hlink. simpl.
    split_and!; [done..|lia]. }
  pose proof (fetches_emit (HttpGet (api_ApiKey E) (instance_url E id)) r) as Hf.
  unfold instance_url in Hf.
  change (if is_fetch _ then 1 else 0)%nat with 1%nat in Hf.
  destruct (remote_answer E id) as [[code data] err] eqn:Hans.
  unfold remote_answer, instance_url in Hans.
  destruct err as [err|].
  { left. eexists. intros fuel. simpl.
    rewrite Hv, Hl, (eqb_empty_false _ Hlink), Hans.
    simpl. split_and!; [done..|lia]. }
  destruct (code =? 200)%Z eqn:Hcode; cycle 1.
  { left. eexists. intros fuel. simpl.
    rewrite Hv, Hl, (eqb_empty_false _ Hlink), Hans, Hcode.
    simpl. split_and!; [done..|lia]. }
  apply Z.eqb_eq in Hcode as ->.
  destruct data as [[e| |fetched]|].
  - left. eexists. intros fuel. simpl.
    rewrite Hv, Hl, (eqb_empty_false _ Hlink), Hans.
    simpl. split_and!; [done..|lia].
  - left. eexists. intros fuel. simpl.
    rewrite Hv, Hl, (eqb_empty_false _ Hlink), Hans.
    simpl. split_and!; [done..|lia].
  - assert (Hs : serves E id fetched) by (by split).
    destruct (add E fetched true
                (emit (HttpGet (api_ApiKey E) (instance_url E id)) r))
      as [e r1] eqn:Hadd.
    pose proof (add_inv _ _ _ _ _ _ Hadd) as Hinv.
    destruct Hinv as [(old & Ho & -> & ->) | [(e' & Hn & _ & Hw & -> & ->)
                     | [(Hn & _ & Hw & -> & ->) | (_ & [=] & _)]]].
    + left. eexists. intros fuel.
      rewrite !(get_miss_served E _ id r fetched), Hadd by done.
      simpl. split_and!; [done..|]. unfold instance_url. lia.
    + left. eexists. intros fuel.
      rewrite !(get_miss_served E _ id r fetched), Hadd by done.
      simpl. split_and!; [done..|].
      rewrite fetches_emit. unfold instance_url. rewrite Hf. simpl. lia.
    + right. exists fetched. simpl in Hn. split_and!; try done.
      intros fuel. rewrite (get_miss_served E _ id r fetched) by done.
      unfold after_fetch. by rewrite Hadd.
  - left. eexists. intros fuel. simpl.
    rewrite Hv, Hl, (eqb_empty_false _ Hlink), Hans.
    simpl. split_and!; [done..|lia].
Qed.

(** The state after a fetched record was added. *)
Lemma after_fetch_added (E : Env) (id : string) (fetched : InstanceConfig)
    (r : Repo) :
  it r !! UUID fetched = None →
  write_error E (backing_file E (UUID fetched)) = None →
  it (after_fetch E id fetched r) = <[UUID fetched := fetched]> (it r) ∧
  disk (after_fetch E id fetched r)
    = <[backing_file E (UUID fetched) := fetched]> (disk r) ∧
  trace (after_fetch E id fetched r)
    = (trace r ++ [HttpGet (api_ApiKey E) (instance_url E id);
                   WriteFile (backing_file E (UUID fetched))])%list ∧
  fetches (trace (after_fetch E id fetched r)) = S (fetches (trace r)).
Proof.
  intros Hn Hw. unfold after_fetch, add, Basedir_WriteConfig. simpl.
  fold (backing_file E (UUID fetched)). rewrite Hn, Hw. simpl.
  split_and!; [done..| by rewrite <- app_assoc |].
  unfold fetches. rewrite !List.filter_app, !length_app. simpl. lia.
Qed.

(** The nested call, made after a fetched record was added, does not call
    [get] again. *)
Lemma get_nested_call (E : Env) (id : string) (r : Repo)
    (fetched : InstanceConfig) :
  serves E id fetched → it r !! UUID fetched = None →
  write_error E (backing_file E (UUID fetched)) = None →
  ∃ r', ∀ fuel,
    final (get E (S fuel) id (after_fetch E id fetched r)) = Some r' ∧
    get E (S fuel) id (after_fetch E id fetched r)
      = get E 1 id (after_fetch E id fetched r) ∧
    (fetches (trace r') ≤ S (S (fetches (trace r))))%nat.
Proof.
  intros Hs Hn Hw.
  destruct (after_fetch_added E id fetched r Hn Hw) as (Hit & _ & _ & Hf).
  destruct (get_call E id (after_fetch E id fetched r))
    as [(r' & Hr') | (fetched' & _ & _ & Hs' & Hn' & _)].
  - exists r'. intros fuel. destruct (Hr' fuel) as (? & ? & ?).
    split_and!; [done..|lia].
  - destruct Hs as [_ Hs], Hs' as [_ Hs'].
    rewrite Hs in Hs'. injection Hs' as <-.
    rewrite Hit, lookup_insert_eq in Hn'. done.
Qed.

(** Two nested calls are enough for every [get]; more fuel changes nothing. *)
Lemma get_two_calls_enough (E : Env) (fuel : nat) (id : string) (r : Repo) :
  get E (S (S fuel)) id r = get E 2 id r.
Proof.
  destruct (get_call E id r)
    as [(r' & Hr') | (fetched & _ & _ & Hs & Hn & Hw & Hrec)].
  - destruct (Hr' (S fuel)) as (_ & -> & _).
    by destruct (Hr' 1) as (_ & -> & _).
  - rewrite !Hrec. destruct (get_nested_call E id r fetched Hs Hn Hw) as (r' & Hr').
    destruct (Hr' fuel) as (_ & -> & _). done.
Qed.

(** Every [get] ends, after at most two requests. *)
Lemma get_fetch_bound (E : Env) (id : string) (r : Repo) :
  ∃ r', final (get E 2 id r) = Some r' ∧
        (fetches (trace r') ≤ fetches (trace r) + 2)%nat.
Proof.
  destruct (get_call E id r)
    as [(r' & Hr') | (fetched & _ & _ & Hs & Hn & Hw & Hrec)].
  - exists r'. destruct (Hr' 1) as (? & _ & ?). split; [done|lia].
  - rewrite Hrec. destruct (get_nested_call E id r fetched Hs Hn Hw) as (r' & Hr').
    exists r'. destruct (Hr' 0) as (? & _ & ?). split; [done|lia].
Qed.

(** A miss whose fetched record is added: [get] is its nested call. *)
Lemma get_miss_added (E : Env) (fuel : nat) (id : string) (r : Repo)
    (fetched : InstanceConfig) :
  valid id = true → it r !! id = None → serves E id fetched →
  it r !! UUID fetched = None →
  write_error E (backing_file E (UUID fetched)) = None →
  get E (S fuel) id r = get E fuel id (after_fetch E id fetched r).
Proof.
  intros Hv Hl Hs Hn Hw.
  rewrite (get_miss_served E _ id r fetched) by done.
  unfold after_fetch.
  destruct (add E fetched true _) as [e r1] eqn:Hadd.
  apply add_inv in Hadd.
  destruct Hadd as [(old & Ho & _) | [(e' & _ & _ & Hw' & _)
                   | [(_ & _ & _ & -> & ->) | (_ & [=] & _)]]].
  - simpl in Ho. congruence.
  - congruence.
  - done.
Qed.

(** ... and when the record carries the requested id, the nested call
    finds it. *)
Lemma get_miss_same_id (E : Env) (fuel : nat) (id : string) (r : Repo)
    (fetched : InstanceConfig) :
  valid id = true → it r !! id = None → serves E id fetched →
  UUID fetched = id →
  write_error E (backing_file E (UUID fetched)) = None →
  get E (S (S fuel)) id r
    = Returned (Some fetched, None) (after_fetch E id fetched r).
Proof.
  intros Hv Hl Hs Hid Hw.
  assert (Hn : it r !! UUID fetched = None) by (by rewrite Hid).
  destruct (after_fetch_added E id fetched r Hn Hw) as (Hit & _).
  rewrite (get_miss_added E _ id r fetched) by done.
  apply get_hit; [done|]. by rewrite Hit, Hid, lookup_insert_eq.
Qed.

(** ... and when it carries another id, the nested call fetches the record
    again and cannot add it twice. *)
Lemma get_miss_other_id (E : Env) (fuel : nat) (id : string) (r : Repo)
    (fetched : InstanceConfig) :
  valid id = true → it r !! id = None → serves E id fetched →
  UUID fetched ≠ id → it r !! UUID fetched = None →
  write_error E (backing_file E (UUID fetched)) = None →
  get E (S (S fuel)) id r
    = Returned
        (None, Some (FailedToAddError (DuplicateInstanceError (UUID fetched))))
        (emit (HttpGet (api_ApiKey E) (instance_url E id))
           (after_fetch E id fetched r)).
Proof.
  intros Hv Hl Hs Hid Hn Hw.
  destruct (after_fetch_added E id fetched r Hn Hw) as (Hit & _).
  rewrite (get_miss_added E _ id r fetched) by done.
  rewrite (get_miss_served E _ id _ fetched); [| done | | done].
  - unfold add. simpl. by rewrite Hit, lookup_insert_eq.
  - by rewrite Hit, lookup_insert_ne.
Qed.

(** C9: with the remote API a fixed function of the request, every call of
    [get] ends (two nested calls are always enough, and more fuel changes
    nothing), by a return or a panic, after at most two requests.  On a miss
    whose fetched record was added, [get] calls itself exactly once (one
    call alone does not end): when the record carries the requested id the
    nested call finds it; when it carries another id the nested call fetches
    again, finds the record already there, and returns the Duplicate error
    wrapped, without a third call. *)
Theorem get_ends_within_two_fetches (E : Env) (id : string) (r : Repo) :
  (∀ fuel, get E (S (S fuel)) id r = get E 2 id r) ∧
  (∃ r', final (get E 2 id r) = Some r' ∧
         (fetches (trace r') ≤ fetches (trace r) + 2)%nat) ∧
  (∀ fetched,
     valid id = true → it r !! id = None → serves E id fetched →
     it r !! UUID fetched = None →
     write_error E (backing_file E (UUID fetched)) = None →
     get E 1 id r = OutOfFuel ∧
     (UUID fetched = id →
      get E 2 id r = Returned (Some fetched, None) (after_fetch E id fetched r) ∧
      fetches (trace (after_fetch E id fetched r)) = S (fetches (trace r))) ∧
     (UUID fetched ≠ id →
      get E 2 id r
        = Returned
            (None, Some (FailedToAddError (DuplicateInstanceError (UUID fetched))))
            (emit (HttpGet (api_ApiKey E) (instance_url E id))
               (after_fetch E id fetched r)) ∧
      fetches (trace (emit (HttpGet (api_ApiKey E) (instance_url E id))
                        (after_fetch E id fetched r)))
        = S (S (fetches (trace r))))).
Proof.
  split_and!.
  - intros fuel. apply get_two_calls_enough.
  - apply get_fetch_bound.
  - intros fetched Hv Hl Hs Hn Hw.
    destruct (after_fetch_added E id fetched r Hn Hw) as (_ & _ & _ & Hf).
    split_and!.
    + by rewrite (get_miss_added E _ id r fetched).
    + intros Hid. split; [|done]. by apply get_miss_same_id.
    + intros Hid. split; [by apply get_miss_other_id|].
      rewrite fetches_emit. simpl. lia.
Qed.

Lemma get_ends_within_two_fetches_witness :
  let E := Samples.serving Samples.mysqlB in
  let r := Samples.empty_repo in
  get E 1 Samples.idA r = OutOfFuel ∧
  get E 2 Samples.idA r
    = Returned
        (None, Some (FailedToAddError (DuplicateInstanceError Samples.idB)))
        (emit (HttpGet "123" "http://localhost/insts/aaaaaaaaaaaaaaaaaaaaaaaaaaaaaaaa")
           (after_fetch E Samples.idA Samples.mysqlB r)) ∧
  fetches (trace (emit (HttpGet "123"
                          "http://localhost/insts/aaaaaaaaaaaaaaaaaaaaaaaaaaaaaaaa")
                    (after_fetch E Samples.idA Samples.mysqlB r))) = 2%nat.
Proof.
  intros E r.
  destruct (get_ends_within_two_fetches E Samples.idA r) as (_ & _ & H).
  destruct (H Samples.mysqlB) as (H1 & _ & H3).
  - reflexivity.
  - reflexivity.
  - split; [discriminate | reflexivity].
  - reflexivity.
  - reflexivity.
  - split; [exact H1|]. apply H3. discriminate.
Defined.

(** ** Repo.Get: fallback fetch and cache *)

(** C2, as amended: [Get] of a well-formed id that is not in the map, when
    the remote API serves a record that carries this very id and the backing
    file can be written, returns that record after one request, has put it
    into the map and into its backing file, and a second [Get] returns it
    again and leaves the state as it is: no request is added to the trace. *)
Theorem Get_fetches_and_caches (E : Env) (fuel : nat) (id : string) (r : Repo)
    (fetched : InstanceConfig) :
  valid id = true → it r !! id = None → serves E id fetched →
  UUID fetched = id →
  write_error E (backing_file E id) = None →
  fetched_and_cached E (S (S fuel)) id r fetched ∧
  ∃ r', Get E (S (S fuel)) id r = Returned (Some fetched, None) r' ∧
        trace r' = (trace r ++ [HttpGet (api_ApiKey E) (instance_url E id);
                                WriteFile (backing_file E id)])%list.
Proof.
  intros Hv Hl Hs Hid Hw.
  assert (Hn : it r !! UUID fetched = None) by (by rewrite Hid).
  rewrite <- Hid in Hw.
  destruct (after_fetch_added E id fetched r Hn Hw) as (Hit & Hdisk & Htr & _).
  assert (Hget : Get E (S (S fuel)) id r
                 = Returned (Some fetched, None) (after_fetch E id fetched r))
    by (by apply get_miss_same_id).
  split.
  - exists (after_fetch E id fetched r). split_and!.
    + done.
    + by rewrite Hit, lookup_insert_eq.
    + by rewrite Hdisk, lookup_insert_eq.
    + apply get_hit; [done|]. by rewrite Hit, Hid, lookup_insert_eq.
  - exists (after_fetch E id fetched r). split; [done|]. by rewrite Htr, Hid.
Qed.

Lemma Get_fetches_and_caches_witness :
  let E := Samples.serving Samples.mysqlA in
  fetched_and_cached E 2 Samples.idA Samples.empty_repo Samples.mysqlA ∧
  ∃ r', Get E 2 Samples.idA Samples.empty_repo
          = Returned (Some Samples.mysqlA, None) r' ∧
        trace r' = [HttpGet "123" "http://localhost/insts/aaaaaaaaaaaaaaaaaaaaaaaaaaaaaaaa";
                    WriteFile "/cfg/instance-aaaaaaaaaaaaaaaaaaaaaaaaaaaaaaaa.conf"].
Proof.
  apply (Get_fetches_and_caches (Samples.serving Samples.mysqlA) 0 Samples.idA
           Samples.empty_repo Samples.mysqlA).
  - reflexivity.
  - reflexivity.
  - split; [discriminate | reflexivity].
  - reflexivity.
  - reflexivity.
Defined.

(** C2, as stated, fails: the record the remote API serves for an id need
    not carry that id, and then [Get] returns the wrapped Duplicate error;
    and the backing file may not be writable, and then [Get] returns the
    write error wrapped.  In both cases the id is well-formed and absent,
    the link is configured and the answer is 200 with a record. *)
Lemma Get_fetches_and_caches_counterexample :
  (valid Samples.idA = true ∧
   it Samples.empty_repo !! Samples.idA = None ∧
   serves (Samples.serving Samples.mysqlB) Samples.idA Samples.mysqlB ∧
   ∀ fuel, ¬ fetched_and_cached (Samples.serving Samples.mysqlB) fuel
               Samples.idA Samples.empty_repo Samples.mysqlB) ∧
  (valid Samples.idA = true ∧
   it Samples.empty_repo !! Samples.idA = None ∧
   serves (Samples.serving_readonly Samples.mysqlA) Samples.idA Samples.mysqlA ∧
   ∀ fuel, ¬ fetched_and_cached (Samples.serving_readonly Samples.mysqlA) fuel
               Samples.idA Samples.empty_repo Samples.mysqlA).
Proof.
  split; (split_and!;
    [reflexivity | reflexivity | split; [discriminate | reflexivity] |]).
  - intros fuel (r' & Hget & _). unfold Get in Hget.
    destruct fuel as [|[|fuel]]; [discriminate Hget..|].
    rewrite get_two_calls_enough in Hget. discriminate Hget.
  - intros fuel (r' & Hget & _). unfold Get in Hget.
    destruct fuel as [|[|fuel]]; [discriminate Hget..|].
    rewrite get_two_calls_enough in Hget. discriminate Hget.
Qed.

(** ** monitor.Monitor: the watch table *)

Lemma Subscribers_Empty_spec (mi : monitor.MysqlInstance) :
  monitor.Subscribers_Empty mi = true ↔ monitor.Subscribers mi = ∅.
Proof.
  unfold monitor.Subscribers_Empty. rewrite Nat.eqb_eq, size_empty_iff.
  by unfold_leibniz.
Qed.

Lemma Check_turns_table (now : string → Z + error)
    (l : list (string * monitor.MysqlInstance))
    (acc : gmap string monitor.MysqlInstance * list (string * gset monitor.chan))
    (dsn : string) :
  NoDup l.*1 →
  (foldl (monitor.Check_turn now) acc l).1 !! dsn =
    match (list_to_map l : gmap string monitor.MysqlInstance) !! dsn with
    | Some mi => Some (monitor.CheckIfMysqlRestarted now dsn mi).2
    | None => acc.1 !! dsn
    end.
Proof.
  revert acc. induction l as [|[k v] l IH]; intros acc Hnd.
  - simpl. by rewrite lookup_empty.
  - rewrite fmap_cons in Hnd. apply NoDup_cons in Hnd as [Hk Hnd].
    cbn [foldl]. rewrite IH by done. rewrite list_to_map_cons.
    unfold monitor.Check_turn.
    destruct (monitor.CheckIfMysqlRestarted now k v) as [restarted v'] eqn:Hc.
    cbn [fst snd]. destruct (decide (k = dsn)) as [->|Hne].
    + rewrite (not_elem_of_list_to_map_1 _ _ Hk), !lookup_insert_eq.
      by rewrite Hc.
    + by rewrite !lookup_insert_ne.
Qed.

Lemma Check_turns_log (now : string → Z + error)
    (l : list (string * monitor.MysqlInstance))
    (acc : gmap string monitor.MysqlInstance * list (string * gset monitor.chan)) :
  (foldl (monitor.Check_turn now) acc l).2.*1 = (acc.2.*1 ++ l.*1)%list.
Proof.
  revert acc. induction l as [|[k v] l IH]; intros acc; simpl.
  - by rewrite app_nil_r.
  - rewrite IH. unfold monitor.Check_turn.
    destruct (monitor.CheckIfMysqlRestarted now k v) as [restarted v'].
    simpl. rewrite fmap_app, <- app_assoc. done.
Qed.

(** The poll tick keeps the targets and their subscribers; it may replace
    fingerprints. *)
Lemma Check_table (now : string → Z + error) (m : monitor.Monitor)
    (dsn : string) :
  monitor.mysqlInstances (monitor.Check now m).1 !! dsn =
    (λ mi, (monitor.CheckIfMysqlRestarted now dsn mi).2)
      <$> monitor.mysqlInstances m !! dsn.
Proof.
  unfold monitor.Check.
  pose proof (Check_turns_table now (map_to_list (monitor.mysqlInstances m))
                (monitor.mysqlInstances m, []) dsn
                (NoDup_fst_map_to_list _)) as H.
  destruct (foldl _ _ _) as [tbl log]. simpl in *. rewrite H.
  rewrite list_to_map_to_list.
  by destruct (monitor.mysqlInstances m !! dsn) eqn:Hl.
Qed.

(** The poll tick checks exactly the targets of the watch table. *)
Lemma checked_spec (now : string → Z + error) (m : monitor.Monitor)
    (dsn : string) :
  dsn ∈ monitor.checked now m ↔ is_Some (monitor.mysqlInstances m !! dsn).
Proof.
  unfold monitor.checked, monitor.Check.
  pose proof (Check_turns_log now (map_to_list (monitor.mysqlInstances m))
                (monitor.mysqlInstances m, [])) as H.
  destruct (foldl _ _ _) as [tbl log]. simpl in *. rewrite H.
  rewrite list_elem_of_fmap. split.
  - intros ([k v] & -> & Hin). apply elem_of_map_to_list in Hin. by exists v.
  - intros [v Hv]. exists (dsn, v). split; [done|].
    by apply elem_of_map_to_list.
Qed.

Lemma CheckIfMysqlRestarted_Subscribers (now : string → Z + error)
    (dsn : string) (mi : monitor.MysqlInstance) :
  monitor.Subscribers (monitor.CheckIfMysqlRestarted now dsn mi).2
  = monitor.Subscribers mi.
Proof.
  unfold monitor.CheckIfMysqlRestarted.
  destruct (now dsn) as [up|]; [|done]. by destruct (up =? _)%Z.
Qed.

Lemma Add_subscribed (now : string → Z + error) (dsn : string)
    (m : monitor.Monitor) :
  subscribed m → subscribed (monitor.Add now dsn m).2.
Proof.
  intros Hinv dsn' mi'. unfold monitor.Add, monitor.createMysqlInstance,
    monitor.NewMysqlInstance, monitor.Subscribers_Add.
  destruct (monitor.mysqlInstances m !! dsn) as [mi|] eqn:Hl; simpl.
  - destruct (decide (dsn = dsn')) as [<-|Hne].
    + rewrite lookup_insert_eq. intros [= <-]. simpl. set_solver.
    + rewrite lookup_insert_ne by done. apply Hinv.
  - destruct (now dsn) as [up|err]; simpl; [|apply Hinv].
    destruct (decide (dsn = dsn')) as [<-|Hne].
    + rewrite lookup_insert_eq. intros [= <-]. simpl. set_solver.
    + rewrite !lookup_insert_ne by done. apply Hinv.
Qed.

Lemma Remove_subscribed (dsn : string) (c : monitor.chan)
    (m : monitor.Monitor) :
  subscribed m → subscribed (monitor.Remove dsn c m).
Proof.
  intros Hinv dsn' mi'. unfold monitor.Remove.
  destruct (monitor.mysqlInstances m !! dsn) as [mi|] eqn:Hl; [|apply Hinv].
  destruct (monitor.Subscribers_Empty _) eqn:He; simpl.
  - destruct (decide (dsn = dsn')) as [<-|Hne].
    + by rewrite lookup_delete_eq.
    + rewrite lookup_delete_ne by done. apply Hinv.
  - destruct (decide (dsn = dsn')) as [<-|Hne].
    + rewrite lookup_insert_eq. intros [= <-] Hempty.
      apply Subscribers_Empty_spec in Hempty. congruence.
    + rewrite lookup_insert_ne by done. apply Hinv.
Qed.

Lemma Check_subscribed (now : string → Z + error) (m : monitor.Monitor) :
  subscribed m → subscribed (monitor.Check now m).1.
Proof.
  intros Hinv dsn mi'. rewrite Check_table.
  destruct (monitor.mysqlInstances m !! dsn) as [mi|] eqn:Hl; [|done].
  simpl. intros [= <-]. rewrite CheckIfMysqlRestarted_Subscribers. eauto.
Qed.

Lemma reachable_subscribed (m : monitor.Monitor) :
  monitor.reachable m → subscribed m.
Proof.
  induction 1 as [|o m _ IH].
  - intros dsn mi. unfold monitor.NewMonitor; simpl. by rewrite lookup_empty.
  - destruct o as [now dsn|dsn c|now]; simpl.
    + by apply Add_subscribed.
    + by apply Remove_subscribed.
    + by apply Check_subscribed.
Qed.

(** Removing the only subscription of a target takes the target out of the
    table. *)
Lemma Remove_last (dsn : string) (c : monitor.chan) (m : monitor.Monitor)
    (mi : monitor.MysqlInstance) :
  monitor.mysqlInstances m !! dsn = Some mi →
  monitor.Subscribers mi = {[c]} →
  monitor.mysqlInstances (monitor.Remove dsn c m) !! dsn = None.
Proof.
  intros Hl Hs. unfold monitor.Remove. rewrite Hl.
  assert (He : monitor.Subscribers_Empty (monitor.Subscribers_Remove c mi) = true).
  { apply Subscribers_Empty_spec. simpl. rewrite Hs. apply difference_diag_L. }
  rewrite He. simpl. apply lookup_delete_eq.
Qed.

(** C3: in every state reachable from the empty watch table by [Add] and
    [Remove] (and poll ticks), every target of the table has a subscriber;
    the poll tick checks a target if and only if it is in the table; and
    removing the only subscription of a target deletes its entry, which
    holds the fingerprint. *)
Theorem watch_table_pruned (m : monitor.Monitor) :
  monitor.reachable m →
  (∀ dsn mi, monitor.mysqlInstances m !! dsn = Some mi →
             monitor.Subscribers mi ≠ ∅) ∧
  (∀ now dsn, dsn ∈ monitor.checked now m ↔
              is_Some (monitor.mysqlInstances m !! dsn)) ∧
  (∀ dsn c mi, monitor.mysqlInstances m !! dsn = Some mi →
               monitor.Subscribers mi = {[c]} →
               monitor.mysqlInstances (monitor.Remove dsn c m) !! dsn = None ∧
               ∀ now, dsn ∉ monitor.checked now (monitor.Remove dsn c m)).
Proof.
  intros Hr. split_and!.
  - by apply reachable_subscribed.
  - intros now dsn. apply checked_spec.
  - intros dsn c mi Hl Hs.
    pose proof (Remove_last dsn c m mi Hl Hs) as Hgone.
    split; [done|]. intros now Hin. apply checked_spec in Hin.
    rewrite Hgone in Hin. by destruct Hin.
Qed.

Lemma watch_table_pruned_witness :
  monitor.reachable Samples.watching ∧
  (∀ dsn mi, monitor.mysqlInstances Samples.watching !! dsn = Some mi →
             monitor.Subscribers mi ≠ ∅) ∧
  (∀ now dsn, dsn ∈ monitor.checked now Samples.watching ↔
              is_Some (monitor.mysqlInstances Samples.watching !! dsn)) ∧
  monitor.mysqlInstances
    (monitor.Remove "test:test@localhost/db1" (Some 1%positive) Samples.watching)
    !! "test:test@localhost/db1" = None.
Proof.
  assert (Hr : monitor.reachable Samples.watching)
    by apply monitor.reachable_step, monitor.reachable_new.
  destruct (watch_table_pruned Samples.watching Hr) as (H1 & H2 & H3).
  split_and!; [exact Hr | exact H1 | exact H2 |].
  refine (proj1 (H3 "test:test@localhost/db1" (Some 1%positive)
                   {| monitor.Subscribers := {[Some 1%positive]};
                      monitor.fingerprint := 1000 |} _ _)).
  - reflexivity.
  - reflexivity.
Defined.

(** C10: [Remove] on a target that is not in the watch table, or with a
    channel that is not subscribed to the target, leaves the monitor as it
    is; and no [Remove] touches the entry of a target other than the one it
    names.  ([Remove] has no result and no failing case.) *)
Theorem Remove_frame (m : monitor.Monitor) (dsn : string) (c : monitor.chan) :
  monitor.reachable m →
  (monitor.mysqlInstances m !! dsn = None ∨
   (∃ mi, monitor.mysqlInstances m !! dsn = Some mi ∧
          c ∉ monitor.Subscribers mi) →
   monitor.Remove dsn c m = m) ∧
  (∀ dsn', dsn' ≠ dsn →
           monitor.mysqlInstances (monitor.Remove dsn c m) !! dsn'
           = monitor.mysqlInstances m !! dsn').
Proof.
  intros Hr. apply reachable_subscribed in Hr. split.
  - intros [Hl | (mi & Hl & Hc)]; unfold monitor.Remove; rewrite Hl; [done|].
    assert (Hsame : monitor.Subscribers_Remove c mi = mi).
    { unfold monitor.Subscribers_Remove. destruct mi as [subs fp]; simpl in *.
      f_equal. apply difference_disjoint_L. set_solver. }
    rewrite Hsame.
    destruct (monitor.Subscribers_Empty mi) eqn:He.
    + apply Subscribers_Empty_spec in He. by destruct (Hr dsn mi Hl).
    + destruct m as [tbl next]; simpl in *. by rewrite insert_id.
  - intros dsn' Hne. unfold monitor.Remove.
    destruct (monitor.mysqlInstances m !! dsn) as [mi|]; [|done].
    destruct (monitor.Subscribers_Empty _); simpl.
    + by rewrite lookup_delete_ne.
    + by rewrite lookup_insert_ne.
Qed.

Lemma Remove_frame_witness :
  (monitor.Remove "test:test@localhost/db2" (Some 1%positive) Samples.watching
   = Samples.watching) ∧
  (monitor.Remove "test:test@localhost/db1" (Some 7%positive) Samples.watching
   = Samples.watching) ∧
  monitor.mysqlInstances
    (monitor.Remove "test:test@localhost/db2" (Some 1%positive) Samples.watching)
    !! "test:test@localhost/db1"
  = monitor.mysqlInstances Samples.watching !! "test:test@localhost/db1".
Proof.
  assert (Hr : monitor.reachable Samples.watching)
    by apply monitor.reachable_step, monitor.reachable_new.
  split_and!.
  - apply (Remove_frame Samples.watching "test:test@localhost/db2"
             (Some 1%positive) Hr).
    left. reflexivity.
  - apply (Remove_frame Samples.watching "test:test@localhost/db1"
             (Some 7%positive) Hr).
    right. eexists. split; [reflexivity|].
    simpl. apply (bool_decide_unpack _). vm_compute. exact I.
  - apply (Remove_frame Samples.watching "test:test@localhost/db2"
             (Some 1%positive) Hr).
    discriminate.
Defined.

(** ** instance.Manager: Handle *)

(** After a successful [Add], [Get] of the record's id does not fetch: it
    finds the record, or refuses the id. *)
Lemma Get_after_Add (E : Env) (fuel : nat) (inst : InstanceConfig)
    (persist : bool) (r r1 : Repo) :
  Add E inst persist r = (None, r1) →
  Get E (S fuel) (UUID inst) r1 = Returned (Some inst, None) r1 ∨
  Get E (S fuel) (UUID inst) r1
    = Returned (None, Some (InvalidInstanceError (UUID inst))) r1.
Proof.
  intros HA. assert (Hin : it r1 !! UUID inst = Some inst).
  { apply add_inv in HA.
    destruct HA as [(? & _ & [=] & _) | [(? & _ & _ & _ & [=] & _)
                   | [(_ & _ & _ & _ & ->) | (_ & _ & _ & ->)]]];
      simpl; apply lookup_insert_eq. }
  unfold Get. destruct (valid (UUID inst)) eqn:Hv.
  - left. by apply get_hit.
  - right. simpl. by rewrite Hv.
Qed.

Lemma prop_lookup_Some (inst : InstanceConfig) (k v : string) :
  prop_lookup inst k = Some v → ∃ ps, Properties inst = Some ps.
Proof. unfold prop_lookup. destruct (Properties inst); [eauto | done]. Qed.

(** The secondary phase of [Add] always ends in the reply without error. *)
Lemma Handle_Add_secondary (E : Env) (fuel : nat) (inst : InstanceConfig)
    (m : Manager) (r1 : Repo) :
  Add E inst true (repo m) = (None, r1) →
  ∃ m', Handle_Add E (S fuel) (Some inst) m = Returned (cmd_Reply None None) m'.
Proof.
  intros HA. unfold Handle_Add. rewrite HA.
  destruct (Get_after_Add E fuel inst true (repo m) r1 HA) as [-> | ->];
    [|eauto].
  destruct (isMySQLConfig inst); [|eauto].
  destruct (prop_lookup inst "dsn") as [dsn|] eqn:Hdsn; [|eauto].
  destruct (monitor.Add _ dsn _) as [[ch [err|]] mon]; [eauto|].
  unfold GetMySQLInfo.
  destruct (mysql_info E _) as [[[hostname distro] version]|err]; [|eauto].
  destruct (prop_lookup_Some _ _ _ Hdsn) as [ps Hps].
  cbn [set_mrmChans set_mrm set_repo repo]. rewrite Hps.
  destruct (pushInstanceInfo E _ _) as [err r2]. eauto.
Qed.

(** The dispatch of [Handle] on the three command names. *)
Lemma Handle_dispatch (E : Env) (fuel : nat) (cmd : Cmd)
    (inst : InstanceConfig) (m : Manager) :
  Data cmd = JSONObject inst →
  (Cmd_ cmd = "Add" → Handle E fuel cmd m = Handle_Add E fuel (Some inst) m) ∧
  (Cmd_ cmd = "Remove" →
   Handle E fuel cmd m = Handle_Remove E fuel (Some inst) m) ∧
  (Cmd_ cmd = "GetInfo" → Handle E fuel cmd m = Handle_GetInfo E (Some inst) m).
Proof.
  intros Hdata. unfold Handle. rewrite Hdata.
  split_and!; intros ->; reflexivity.
Qed.

(** C8: for an Add command whose payload decodes to a record, [Handle]
    returns a reply, and the reply's error is the error of the store's [Add]:
    an error reply if and only if [Add] failed.  After a successful [Add]
    the reply carries no error, whatever the re-fetch, the monitor, the
    probe and the push do. *)
Theorem Handle_Add_reports_the_store (E : Env) (fuel : nat) (cmd : Cmd)
    (inst : InstanceConfig) (m : Manager) :
  Cmd_ cmd = "Add" → Data cmd = JSONObject inst →
  ∃ reply m',
    Handle E (S fuel) cmd m = Returned reply m' ∧
    Reply_Error reply = (Add E inst true (repo m)).1 ∧
    (is_Some (Reply_Error reply) ↔ is_Some (Add E inst true (repo m)).1) ∧
    ((Add E inst true (repo m)).1 = None → reply = cmd_Reply None None).
Proof.
  intros Hcmd Hdata.
  rewrite (proj1 (Handle_dispatch E (S fuel) cmd inst m Hdata) Hcmd).
  destruct (Add E inst true (repo m)) as [[err|] r1] eqn:HA.
  - unfold Handle_Add. rewrite HA. do 2 eexists. split_and!; done.
  - destruct (Handle_Add_secondary E fuel inst m r1 HA) as [m' ->].
    do 2 eexists. split_and!; done.
Qed.

Lemma Handle_Add_reports_the_store_witness :
  let E := Samples.offline in
  let cmd := Samples.command "Add" Samples.mysqlA in
  ∃ reply m',
    Handle E 1 cmd Samples.empty_manager = Returned reply m' ∧
    Reply_Error reply = (Add E Samples.mysqlA true Samples.empty_repo).1 ∧
    (is_Some (Reply_Error reply)
     ↔ is_Some (Add E Samples.mysqlA true Samples.empty_repo).1) ∧
    ((Add E Samples.mysqlA true Samples.empty_repo).1 = None →
     reply = cmd_Reply None None).
Proof.
  apply (Handle_Add_reports_the_store Samples.offline 0
           (Samples.command "Add" Samples.mysqlA) Samples.mysqlA
           Samples.empty_manager).
  - reflexivity.
  - reflexivity.
Defined.

(** In [case "Remove"], whenever [Get] returns an error it returns a nil
    record, and [iit.UUID] is then evaluated on it: [Handle] panics before
    it calls [Repo.Remove]. *)
Lemma Handle_Remove_Get_error (E : Env) (fuel : nat) (cmd : Cmd)
    (inst : InstanceConfig) (m : Manager) (err : error) (r' : Repo) :
  Cmd_ cmd = "Remove" → Data cmd = JSONObject inst →
  Get E fuel (UUID inst) (repo m) = Returned (None, Some err) r' →
  Handle E fuel cmd m = Panicked (set_repo r' m).
Proof.
  intros Hcmd Hdata HG.
  rewrite (proj1 (proj2 (Handle_dispatch E fuel cmd inst m Hdata)) Hcmd).
  unfold Handle_Remove. by rewrite HG.
Qed.

Lemma set_repo_same (m : Manager) : set_repo (repo m) m = m.
Proof. by destruct m. Qed.

(** C1: a Remove command for a record whose id is malformed, or is
    well-formed, absent from the map and not resolvable for want of an
    'insts' link, makes [Handle] panic with the manager as it was, although
    [Repo.Remove] on that id returns the Invalid-id, respectively the
    Unknown-instance error, which the reply was to carry. *)
Theorem Handle_Remove_unresolved_panics (E : Env) (fuel : nat) (cmd : Cmd)
    (inst : InstanceConfig) (m : Manager) :
  Cmd_ cmd = "Remove" → Data cmd = JSONObject inst →
  (valid (UUID inst) = false →
   Handle E (S fuel) cmd m = Panicked m ∧
   Remove E (UUID inst) (repo m)
     = (Some (InvalidInstanceError (UUID inst)), repo m)) ∧
  (valid (UUID inst) = true → it (repo m) !! UUID inst = None →
   api_EntryLink E "insts" = "" →
   Handle E (S fuel) cmd m = Panicked m ∧
   Remove E (UUID inst) (repo m)
     = (Some (UnknownInstanceError (UUID inst)), repo m)).
Proof.
  intros Hcmd Hdata. split.
  - intros Hv. split.
    + rewrite <- (set_repo_same m) at 2.
      apply (Handle_Remove_Get_error E _ cmd inst m
               (InvalidInstanceError (UUID inst))); [done..|].
      unfold Get. simpl. by rewrite Hv.
    + unfold Remove. by rewrite Hv.
  - intros Hv Hl Hlink. split.
    + rewrite <- (set_repo_same m) at 2.
      apply (Handle_Remove_Get_error E _ cmd inst m
               (UnknownInstanceError (UUID inst))); [done..|].
      unfold Get. simpl. by rewrite Hv, Hl, Hlink.
    + unfold Remove. by rewrite Hv, Hl.
Qed.

Lemma Handle_Remove_unresolved_panics_witness :
  (Handle Samples.offline 1 (Samples.command "Remove" Samples.malformed)
     Samples.empty_manager = Panicked Samples.empty_manager ∧
   Remove Samples.offline "zz" Samples.empty_repo
     = (Some (InvalidInstanceError "zz"), Samples.empty_repo)) ∧
  (Handle Samples.offline 1 (Samples.command "Remove" Samples.mysqlA)
     Samples.empty_manager = Panicked Samples.empty_manager ∧
   Remove Samples.offline Samples.idA Samples.empty_repo
     = (Some (UnknownInstanceError Samples.idA), Samples.empty_repo)).
Proof.
  split.
  - apply (Handle_Remove_unresolved_panics Samples.offline 0
             (Samples.command "Remove" Samples.malformed) Samples.malformed
             Samples.empty_manager); reflexivity.
  - apply (Handle_Remove_unresolved_panics Samples.offline 0
             (Samples.command "Remove" Samples.mysqlA) Samples.mysqlA
             Samples.empty_manager); reflexivity.
Defined.

(** GetInfo for a record that is not of the MySQL type: the reply carries
    the error, and nothing at all has changed or been asked. *)
Lemma Handle_GetInfo_not_MySQL (E : Env) (fuel : nat) (cmd : Cmd)
    (inst : InstanceConfig) (m : Manager) :
  Cmd_ cmd = "GetInfo" → Data cmd = JSONObject inst →
  isMySQLConfig inst = false →
  Handle E fuel cmd m
    = Returned (cmd_Reply (Some inst) (Some (DontKnowInfoError (UUID inst)))) m.
Proof.
  intros Hcmd Hdata Hty.
  rewrite (proj2 (proj2 (Handle_dispatch E fuel cmd inst m Hdata)) Hcmd).
  unfold Handle_GetInfo, handleGetInfo. rewrite Hty. simpl.
  by rewrite set_repo_same.
Qed.

Example Handle_GetInfo_OS :
  Handle Samples.offline 0 (Samples.command "GetInfo" Samples.osA)
    Samples.empty_manager
  = Returned (cmd_Reply (Some Samples.osA)
                (Some (DontKnowInfoError Samples.idA)))
      Samples.empty_manager.
Proof. reflexivity. Qed.

(** C4: GetInfo for a MySQL record that has no "dsn" property is not
    refused: [handleGetInfo] goes on to [GetMySQLInfo], which connects with
    the empty DSN.  The call ends with that connection in the trace, and
    when the server there answers, the reply carries no error. *)
Theorem Handle_GetInfo_without_dsn_probes (E : Env) (fuel : nat) (cmd : Cmd)
    (inst : InstanceConfig) (m : Manager) :
  Cmd_ cmd = "GetInfo" → Data cmd = JSONObject inst →
  isMySQLConfig inst = true → prop_lookup inst "dsn" = None →
  (∃ m', final (Handle E fuel cmd m) = Some m' ∧
         trace (repo m') = (trace (repo m) ++ [MySQLConnect ""])%list) ∧
  (∀ answer ps, mysql_info E "" = inl answer → Properties inst = Some ps →
     ∃ refreshed m', Handle E fuel cmd m
                     = Returned (cmd_Reply (Some refreshed) None) m').
Proof.
  intros Hcmd Hdata Hty Hdsn.
  rewrite (proj2 (proj2 (Handle_dispatch E fuel cmd inst m Hdata)) Hcmd).
  unfold Handle_GetInfo, handleGetInfo, GetMySQLInfo, prop_get.
  rewrite Hty, Hdsn. simpl. split.
  - destruct (mysql_info E "") as [[[hostname distro] version]|err].
    + destruct (Properties inst); eexists; split; done.
    + eexists; split; done.
  - intros [[hostname distro] version] ps -> ->. eauto.
Qed.

Lemma Handle_GetInfo_without_dsn_probes_witness :
  let cmd := Samples.command "GetInfo" Samples.mysqlNoDSN in
  (∃ m', final (Handle Samples.offline 0 cmd Samples.empty_manager) = Some m' ∧
         trace (repo m') = [MySQLConnect ""]) ∧
  (∃ refreshed m', Handle Samples.offline 0 cmd Samples.empty_manager
                   = Returned (cmd_Reply (Some refreshed) None) m').
Proof.
  intros cmd.
  destruct (Handle_GetInfo_without_dsn_probes Samples.offline 0 cmd
              Samples.mysqlNoDSN Samples.empty_manager) as [H1 H2].
  - reflexivity.
  - reflexivity.
  - reflexivity.
  - reflexivity.
  - split; [exact H1|].
    apply (H2 ("db1", "MySQL Community Server", "5.6.24") ∅); reflexivity.
Defined.

(** * Properties of the rest of the code *)

(** ** File names: written by Add and Remove, read back by Init *)

Lemma strings_Split_nonempty (sep : Ascii.ascii) (s : string) :
  strings_Split sep s ≠ [].
Proof.
  destruct s as [|c s]; simpl; [done|].
  destruct (Ascii.eqb c sep); [done|].
  by destruct (strings_Split sep s).
Qed.

Lemma strings_Split_app_sep (sep : Ascii.ascii) (a b : string) :
  strings_Split sep (a ++ String sep b)
  = (strings_Split sep a ++ strings_Split sep b)%list.
Proof.
  induction a as [|c a IH]; simpl.
  - by rewrite Ascii.eqb_refl.
  - destruct (Ascii.eqb c sep); [by rewrite IH|].
    rewrite IH. pose proof (strings_Split_nonempty sep a) as Hne.
    by destruct (strings_Split sep a).
Qed.

Lemma strings_Split_app_whole (sep : Ascii.ascii) (a b : string) :
  strings_Split sep a = [a] → strings_Split sep b = [b] →
  strings_Split sep (a ++ b) = [a ++ b].
Proof.
  intros Ha Hb. induction a as [|c a IH]; simpl in *; [done|].
  destruct (Ascii.eqb c sep); [discriminate Ha|].
  pose proof (strings_Split_nonempty sep a) as Hne.
  destruct (strings_Split sep a) as [|p ps]; [done|].
  injection Ha as -> ->. by rewrite IH.
Qed.

Lemma xdigit_not_sep (sep c : Ascii.ascii) :
  xdigit sep = false → xdigit c = true → Ascii.eqb c sep = false.
Proof.
  intros Hs Hc. apply Ascii.eqb_neq. intros ->. congruence.
Qed.

(** A string of hexadecimal digits holds no separator that is not one. *)
Lemma strings_Split_xdigits (sep : Ascii.ascii) (s : string) :
  xdigit sep = false →
  forallb xdigit (String.list_ascii_of_string s) = true →
  strings_Split sep s = [s].
Proof.
  intros Hsep. induction s as [|c s IH]; simpl; [done|].
  intros [Hc Hs]%andb_prop. rewrite (xdigit_not_sep sep c Hsep Hc).
  by rewrite IH.
Qed.

Lemma substring_prefix (a b : string) :
  String.substring 0 (String.length a) (a ++ b) = a.
Proof.
  induction a as [|c a IH]; simpl.
  - by destruct b.
  - by rewrite IH.
Qed.

Lemma substring_whole (s : string) :
  String.substring 0 (String.length s) s = s.
Proof. induction s as [|c s IH]; simpl; [done|by rewrite IH]. Qed.

Lemma substring_suffix (a b : string) :
  String.substring (String.length a) (String.length b) (a ++ b) = b.
Proof.
  induction a as [|c a IH]; simpl; [apply substring_whole|done].
Qed.

Lemma string_length_app (a b : string) :
  String.length (a ++ b) = (String.length a + String.length b)%nat.
Proof. induction a as [|c a IH]; simpl; [done|by rewrite IH]. Qed.

(** [TrimSuffix] undoes the addition of the suffix. *)
Lemma strings_TrimSuffix_app (s suffix : string) :
  strings_TrimSuffix (s ++ suffix) suffix = s.
Proof.
  unfold strings_TrimSuffix, strings_HasSuffix.
  rewrite string_length_app.
  replace (String.length s + String.length suffix - String.length suffix)%nat
    with (String.length s) by lia.
  rewrite substring_suffix, String.eqb_refl, substring_prefix.
  by rewrite (proj2 (Nat.leb_le _ _)) by lia.
Qed.

(** [Base] of a directory followed by a file name is the file name. *)
Lemma filepath_Base_file (dir name : string) :
  name ≠ "" → strings_Split slash name = [name] →
  filepath_Base (dir ++ String slash name) = name.
Proof.
  intros Hne Hname. unfold filepath_Base.
  assert (Hpath : String.eqb (dir ++ String slash name) "" = false).
  { apply String.eqb_neq. by destruct dir. }
  rewrite Hpath, strings_Split_app_sep, Hname, List.filter_app. simpl.
  rewrite (proj2 (String.eqb_neq _ _) Hne). simpl. by rewrite last_snoc.
Qed.

(** The parts that [loadInstances] cuts the name of a backing file into. *)
Lemma backing_file_parts (dir id : string) :
  valid id = true →
  strings_Split dash
    (strings_TrimSuffix
       (filepath_Base (dir ++ "/instance-" ++ id ++ ".conf")) ".conf")
  = ["instance"; id].
Proof.
  intros [_ Hx]%valid_spec.
  change (dir ++ "/instance-" ++ id ++ ".conf")
    with (dir ++ String slash (("instance-" ++ id) ++ ".conf")).
  rewrite filepath_Base_file.
  - rewrite strings_TrimSuffix_app.
    change ("instance-" ++ id) with ("instance" ++ String dash id).
    rewrite strings_Split_app_sep, (strings_Split_xdigits dash id); done.
  - done.
  - apply strings_Split_app_whole; [|done].
    apply (strings_Split_app_whole slash "instance-" id); [done|].
    by apply strings_Split_xdigits.
Qed.

(** ** Repo.Init *)

(** What one turn of the loop of [loadInstances] can do: panic or stop with
    an error, both with the repository as it was, or put the record of the
    file into the map under the record's UUID, which was free. *)
Lemma loadFile_cases (E : Env) (read : string → body + error) (file : string)
    (r : Repo) :
  loadFile E read file r = Panicked r ∨
  (∃ e, loadFile E read file r = Returned (Some e) r) ∨
  (∃ inst, read file = inl (JSONObject inst) ∧ it r !! UUID inst = None ∧
           loadFile E read file r
           = Returned None (set_it (insert (UUID inst) inst) r)).
Proof.
  unfold loadFile.
  destruct (negb (length _ =? 2)%nat); [eauto|].
  destruct (negb (valid _)); [eauto|].
  destruct (read file) as [[e| |inst]|e]; simpl; eauto.
  unfold Add, add. destruct (it r !! UUID inst) eqn:Hl; eauto 10.
Qed.

(** X1: the name of the backing file that [Add] writes for a well-formed id,
    and of the file that [Remove] deletes, is one that [loadInstances]
    accepts, and the id it cuts out of the name is that id. *)
Theorem backing_file_name_is_accepted (E : Env) (id : string) :
  valid id = true →
  strings_Split dash
    (strings_TrimSuffix (filepath_Base (backing_file E id)) ".conf")
  = ["instance"; id] ∧
  strings_Split dash
    (strings_TrimSuffix
       (filepath_Base (configDir E ++ "/instance-" ++ id ++ ".conf")) ".conf")
  = ["instance"; id].
Proof.
  intros Hv. split; [|by apply backing_file_parts].
  change (backing_file E id)
    with (Basedir_config E ++ "/instance-" ++ id ++ ".conf").
  by apply backing_file_parts.
Qed.

Lemma backing_file_name_is_accepted_witness :
  strings_Split dash
    (strings_TrimSuffix
       (filepath_Base (backing_file Samples.offline Samples.idA)) ".conf")
  = ["instance"; Samples.idA] ∧
  strings_Split dash
    (strings_TrimSuffix
       (filepath_Base
          (configDir Samples.offline ++ "/instance-" ++ Samples.idA ++ ".conf"))
       ".conf")
  = ["instance"; Samples.idA].
Proof.
  apply (backing_file_name_is_accepted Samples.offline Samples.idA).
  reflexivity.
Defined.

Lemma loadFile_record (E : Env) (read : string → body + error)
    (dir id : string) (inst : InstanceConfig) (r : Repo) :
  valid id = true →
  read (dir ++ "/instance-" ++ id ++ ".conf") = inl (JSONObject inst) →
  loadFile E read (dir ++ "/instance-" ++ id ++ ".conf") r
  = match Add E inst false r with
    | (Some err, r) =>
        Returned
          (Some (FileError (dir ++ "/instance-" ++ id ++ ".conf") err)) r
    | (None, r) => Returned None r
    end.
Proof.
  intros Hv Hread. unfold loadFile.
  rewrite (backing_file_parts dir id Hv). simpl. by rewrite Hv, Hread.
Qed.

(** X2: a file with the name of a backing file that holds a record is
    loaded under the UUID of the record, whether or not that is the id in
    the file name; when that UUID is already in the map the turn stops with
    the Duplicate error, prefixed with the file, and the map is as it was. *)
Theorem loadFile_stores_under_the_record_UUID (E : Env)
    (read : string → body + error) (dir id : string) (inst : InstanceConfig)
    (r : Repo) :
  valid id = true →
  read (dir ++ "/instance-" ++ id ++ ".conf") = inl (JSONObject inst) →
  (it r !! UUID inst = None →
   loadFile E read (dir ++ "/instance-" ++ id ++ ".conf") r
   = Returned None (set_it (insert (UUID inst) inst) r)) ∧
  (is_Some (it r !! UUID inst) →
   loadFile E read (dir ++ "/instance-" ++ id ++ ".conf") r
   = Returned
       (Some (FileError (dir ++ "/instance-" ++ id ++ ".conf")
                (DuplicateInstanceError (UUID inst))))
       r).
Proof.
  intros Hv Hread. rewrite (loadFile_record E read dir id inst r Hv Hread).
  unfold Add, add. split.
  - by intros ->.
  - by intros [old ->].
Qed.

Lemma loadFile_stores_under_the_record_UUID_witness :
  let file := "/cfg/instance-" ++ Samples.idA ++ ".conf" in
  let read := λ _ : string, inl (JSONObject Samples.mysqlB) : body + error in
  loadFile Samples.offline read file Samples.empty_repo
  = Returned None
      (set_it (insert Samples.idB Samples.mysqlB) Samples.empty_repo) ∧
  loadFile Samples.offline read file
    (set_it (insert Samples.idB Samples.mysqlB) Samples.empty_repo)
  = Returned (Some (FileError file (DuplicateInstanceError Samples.idB)))
      (set_it (insert Samples.idB Samples.mysqlB) Samples.empty_repo).
Proof.
  intros file read. split.
  - apply (loadFile_stores_under_the_record_UUID Samples.offline read "/cfg"
             Samples.idA Samples.mysqlB Samples.empty_repo);
      reflexivity.
  - apply (loadFile_stores_under_the_record_UUID Samples.offline read "/cfg"
             Samples.idA Samples.mysqlB
             (set_it (insert Samples.idB Samples.mysqlB) Samples.empty_repo)).
    + reflexivity.
    + reflexivity.
    + by exists Samples.mysqlB.
Defined.

Lemma loadFiles_app (E : Env) (read : string → body + error)
    (before after : list string) (r : Repo) :
  loadFiles E read (before ++ after)%list r =
    match loadFiles E read before r with
    | Returned None r1 => loadFiles E read after r1
    | stopped => stopped
    end.
Proof.
  revert r. induction before as [|file before IH]; intros r; simpl; [done|].
  destruct (loadFile E read file r) as [[e|] r1|r1|]; done.
Qed.

(** X3: [loadInstances] fails fast and does not undo: when the files before
    some file load, giving [r1], and the turn of that file stops with an
    error, the whole load returns that error in [r1], with the records of
    the files before in the map, and the files after are not looked at. *)
Theorem loadInstances_stops_at_first_error (E : Env)
    (read : string → body + error) (before after : list string)
    (file : string) (r r1 : Repo) (e : load_error) :
  loadFiles E read before r = Returned None r1 →
  loadFile E read file r1 = Returned (Some e) r1 →
  loadInstances E (inl (before ++ file :: after)%list) read r
  = Returned (Some e) r1.
Proof.
  intros Hb Hf. unfold loadInstances. rewrite loadFiles_app, Hb. simpl.
  by rewrite Hf.
Qed.

Lemma loadInstances_stops_at_first_error_witness :
  let good := "/cfg/instance-" ++ Samples.idA ++ ".conf" in
  let read := λ _ : string, inl (JSONObject Samples.mysqlA) : body + error in
  loadInstances Samples.offline (inl [good; "/cfg/instance-a-b.conf"; good])
    read Samples.empty_repo
  = Returned (Some (InvalidFileNameError "/cfg/instance-a-b.conf"))
      (set_it (insert Samples.idA Samples.mysqlA) Samples.empty_repo).
Proof.
  intros good read.
  apply (loadInstances_stops_at_first_error Samples.offline read [good] [good]
           "/cfg/instance-a-b.conf" Samples.empty_repo
           (set_it (insert Samples.idA Samples.mysqlA) Samples.empty_repo));
    reflexivity.
Defined.

Lemma loadFiles_effects (E : Env) (read : string → body + error)
    (files : list string) (r : Repo) :
  ∃ r', final (loadFiles E read files r) = Some r' ∧
        disk r' = disk r ∧ trace r' = trace r ∧ it r ⊆ it r' ∧
        (keyed r → keyed r').
Proof.
  revert r. induction files as [|file files IH]; intros r; simpl.
  { exists r. by split_and!. }
  destruct (loadFile_cases E read file r)
    as [-> | [[e ->] | (inst & _ & Hn & ->)]].
  - exists r. by split_and!.
  - exists r. by split_and!.
  - destruct (IH (set_it (insert (UUID inst) inst) r))
      as (r' & Hfin & Hd & Ht & Hsub & Hk).
    exists r'. split_and!; try done.
    + etrans; [|exact Hsub]. simpl. by apply insert_subseteq.
    + intros Hkeyed. apply Hk. intros id' inst'. simpl.
      destruct (decide (UUID inst = id')) as [<-|Hne].
      * rewrite lookup_insert_eq. by intros [= <-].
      * rewrite lookup_insert_ne by done. apply Hkeyed.
Qed.

(** X4: whatever the directory holds, [Init] ends, by a return or by the
    panic on a file that holds [null]; it writes no file and sends no
    request, and it keeps every record that was in the map. *)
Theorem Init_reads_only (E : Env) (glob : list string + error)
    (read : string → body + error) (r : Repo) :
  ∃ r', final (Init E glob read r) = Some r' ∧
        disk r' = disk r ∧ trace r' = trace r ∧ it r ⊆ it r'.
Proof.
  unfold Init, loadInstances. destruct glob as [files|err].
  - destruct (loadFiles_effects E read files r) as (r' & ? & ? & ? & ? & _).
    by exists r'.
  - exists r. by split_and!.
Qed.

(** X5: when [Init] returns no error, every file that matched held a record
    and that record is in the map under its UUID, and the map has grown by
    exactly one record per file. *)
Theorem Init_loads_every_file (E : Env) (files : list string)
    (read : string → body + error) (r r' : Repo) :
  Init E (inl files) read r = Returned None r' →
  (∀ file, file ∈ files →
     ∃ inst, read file = inl (JSONObject inst) ∧
             it r' !! UUID inst = Some inst) ∧
  length (List r') = (length (List r) + length files)%nat.
Proof.
  unfold Init, loadInstances, List. rewrite !length_fmap, !length_map_to_list.
  revert r. induction files as [|file files IH]; intros r; simpl.
  { intros [= <-]. split; [|lia]. intros file Hin. by apply elem_of_nil in Hin. }
  destruct (loadFile_cases E read file r)
    as [-> | [[e ->] | (inst & Hread & Hn & ->)]]; [done..|].
  intros Hrest. destruct (IH _ Hrest) as [Hall Hlen]. split.
  - intros file' [->|Hin]%elem_of_cons; [|by apply Hall].
    exists inst. split; [done|].
    destruct (loadFiles_effects E read files
                (set_it (insert (UUID inst) inst) r))
      as (r'' & Hfin & _ & _ & Hsub & _).
    rewrite Hrest in Hfin. injection Hfin as <-.
    eapply lookup_weaken; [|exact Hsub]. simpl. apply lookup_insert_eq.
  - rewrite Hlen. simpl. rewrite map_size_insert_None by done. lia.
Qed.

Lemma Init_loads_every_file_witness :
  let fileA := "/cfg/instance-" ++ Samples.idA ++ ".conf" in
  let fileB := "/cfg/instance-" ++ Samples.idB ++ ".conf" in
  let read := λ f : string,
    (if String.eqb f fileA then inl (JSONObject Samples.mysqlA)
     else inl (JSONObject Samples.mysqlB)) : body + error in
  let r' := set_it (insert Samples.idB Samples.mysqlB)
              (set_it (insert Samples.idA Samples.mysqlA) Samples.empty_repo) in
  (∀ file, file ∈ [fileA; fileB] →
     ∃ inst, read file = inl (JSONObject inst) ∧
             it r' !! UUID inst = Some inst) ∧
  length (List r') = (length (List Samples.empty_repo) + 2)%nat.
Proof.
  intros fileA fileB read r'.
  apply (Init_loads_every_file Samples.offline [fileA; fileB] read
           Samples.empty_repo r').
  reflexivity.
Defined.

(** X6: a record that [Add] has persisted is found again by [Init] on a
    new repository over the same files: loading the backing file gives a
    map that holds exactly that record, under its UUID. *)
Theorem Add_then_Init_round_trip (E : Env) (inst : InstanceConfig)
    (r r1 : Repo) :
  valid (UUID inst) = true →
  Add E inst true r = (None, r1) →
  ∃ r', Init E (inl [backing_file E (UUID inst)]) (ReadFile r1)
          (NewRepo (disk r1))
        = Returned None r' ∧
        it r' = {[ UUID inst := inst ]} ∧ disk r' = disk r1.
Proof.
  intros Hv HA. apply add_inv in HA.
  destruct HA as [(? & _ & [=] & _) | [(? & _ & _ & _ & [=] & _)
                 | [(_ & _ & _ & _ & Hr1) | (_ & [=] & _)]]].
  exists (set_it (insert (UUID inst) inst) (NewRepo (disk r1))).
  split; [|by split].
  unfold Init, loadInstances. simpl.
  change (backing_file E (UUID inst))
    with (Basedir_config E ++ "/instance-" ++ UUID inst ++ ".conf").
  rewrite (loadFile_record E _ (Basedir_config E) (UUID inst) inst _ Hv);
    [done|].
  unfold ReadFile. rewrite Hr1. simpl.
  change (Basedir_config E ++ "/instance-" ++ UUID inst ++ ".conf")
    with (backing_file E (UUID inst)).
  by rewrite lookup_insert_eq.
Qed.

Lemma Add_then_Init_round_trip_witness :
  ∃ r', Init Samples.offline (inl [backing_file Samples.offline Samples.idA])
          (ReadFile Cases.stored) (NewRepo (disk Cases.stored))
        = Returned None r' ∧
        it r' = {[ Samples.idA := Samples.mysqlA ]} ∧
        disk r' = disk Cases.stored.
Proof.
  apply (Add_then_Init_round_trip Samples.offline Samples.mysqlA
           Samples.empty_repo Cases.stored); reflexivity.
Defined.

(** ** Repo: what Get, Add and Remove keep and undo *)

Lemma keyed_insert (r : Repo) (inst : InstanceConfig) :
  keyed r → keyed (set_it (insert (UUID inst) inst) r).
Proof.
  intros Hk id' inst'. simpl.
  destruct (decide (UUID inst = id')) as [<-|Hne].
  - rewrite lookup_insert_eq. by intros [= <-].
  - rewrite lookup_insert_ne by done. apply Hk.
Qed.

Lemma add_grows (E : Env) (inst : InstanceConfig) (persist : bool)
    (r r' : Repo) (err : option error) :
  add E inst persist r = (err, r') →
  it r ⊆ it r' ∧ (keyed r → keyed r') ∧
  (err = None → it r' !! UUID inst = Some inst).
Proof.
  intros H. apply add_inv in H.
  destruct H as [(old & Hl & -> & ->) | [(e & Hl & _ & _ & -> & ->)
                | [(Hl & _ & _ & -> & ->) | (Hl & _ & -> & ->)]]]; simpl.
  - by split_and!.
  - by split_and!.
  - split_and!.
    + by apply insert_subseteq.
    + intros Hk. apply (keyed_insert (set_disk _ (emit _ r)) inst). exact Hk.
    + intros _. apply lookup_insert_eq.
  - split_and!.
    + by apply insert_subseteq.
    + intros Hk. by apply keyed_insert.
    + intros _. apply lookup_insert_eq.
Qed.

(** The shape of what [get] returns, and what it does to the map. *)
Lemma get_inv (E : Env) (fuel : nat) (id : string) (r : Repo) :
  match get E fuel id r with
  | Returned (Some inst, None) r' =>
      it r' !! id = Some inst ∧ it r ⊆ it r' ∧ (keyed r → keyed r')
  | Returned (None, Some _) r' => it r ⊆ it r' ∧ (keyed r → keyed r')
  | Returned _ _ => False
  | Panicked r' => it r ⊆ it r' ∧ (keyed r → keyed r')
  | OutOfFuel => True
  end.
Proof.
  revert r. induction fuel as [|fuel IH]; intros r; [done|]. simpl.
  destruct (valid id); simpl; [|done].
  destruct (it r !! id) as [inst|] eqn:Hl; [done|].
  destruct (String.eqb _ ""); [done|].
  destruct (api_Get E _ _) as [[code data] [err|]]; [done|].
  destruct (code =? 200)%Z; simpl; [|done].
  destruct data as [[e| |fetched]|]; simpl; try done.
  destruct (add E fetched true _) as [[err|] r1] eqn:Hadd.
  - apply add_grows in Hadd as (Hsub & Hk & _). by split.
  - apply add_grows in Hadd as (Hsub & Hk & _). simpl in Hsub.
    specialize (IH r1). destruct (get E fuel id r1) as [[[i|] [e|]] r2|r2|];
      try done.
    + destruct IH as (? & ? & ?). split_and!; [done| by etrans | auto].
    + destruct IH as (? & ?). split; [by etrans | auto].
    + destruct IH as (? & ?). split; [by etrans | auto].
Qed.

(** X7: [Get] returns either a record and no error, or an error and no
    record, never both and never neither; a record it returns is the entry
    of the requested id in the map it leaves.  Every record that was in the
    map is still there afterwards, unchanged, also when [Get] fails or
    panics. *)
Theorem Get_result_shape (E : Env) (fuel : nat) (id : string) (r r' : Repo)
    (res : option InstanceConfig * option error) :
  Get E fuel id r = Returned res r' →
  ((∃ inst, res = (Some inst, None) ∧ it r' !! id = Some inst) ∨
   (∃ err, res = (None, Some err))) ∧
  it r ⊆ it r'.
Proof.
  intros HG. pose proof (get_inv E fuel id r) as H.
  unfold Get in HG. rewrite HG in H.
  destruct res as [[inst|] [err|]]; try done.
  - destruct H as (? & ? & _). split; [left; eauto | done].
  - destruct H as (? & _). split; [right; eauto | done].
Qed.

Lemma Get_result_shape_witness :
  ((∃ inst, (Some Samples.mysqlA, None) = (Some inst, @None error) ∧
            it Cases.stored !! Samples.idA = Some inst) ∨
   (∃ err, (Some Samples.mysqlA, @None error) = (None, Some err))) ∧
  it Cases.stored ⊆ it Cases.stored.
Proof.
  apply (Get_result_shape Samples.offline 1 Samples.idA Cases.stored
           Cases.stored (Some Samples.mysqlA, None)).
  reflexivity.
Defined.

Lemma Remove_inv (E : Env) (id : string) (r r' : Repo) (err : option error) :
  Remove E id r = (err, r') →
  (is_Some err ∧ it r' = it r ∧ disk r' = disk r) ∨
  (err = None ∧ valid id = true ∧ is_Some (it r !! id) ∧
   it r' = delete id (it r) ∧
   disk r' = delete (configDir E ++ "/instance-" ++ id ++ ".conf") (disk r) ∧
   trace r'
   = (trace r ++ [RemoveFile (configDir E ++ "/instance-" ++ id ++ ".conf")])%list).
Proof.
  unfold Remove, os_Remove.
  destruct (valid id); simpl; [|intros [= <- <-]; left; eauto].
  destruct (it r !! id) as [inst|] eqn:Hl; [|intros [= <- <-]; left; eauto].
  destruct (disk r !! _) eqn:Hd; [|intros [= <- <-]; left; eauto].
  destruct (remove_error E _); intros [= <- <-]; [left; eauto|].
  right. split_and!; eauto.
Qed.

(** X8: [Remove] is all or nothing on the map and the files: when it
    returns an error both are as they were; when it returns none, the id was
    well-formed and in the map, and the entry and the file
    [<configDir>/instance-<id>.conf] are both gone, the other entries and
    files being as they were. *)
Theorem Remove_all_or_nothing (E : Env) (id : string) (r r' : Repo)
    (err : option error) :
  Remove E id r = (err, r') →
  (is_Some err → it r' = it r ∧ disk r' = disk r) ∧
  (err = None →
   valid id = true ∧ is_Some (it r !! id) ∧
   it r' = delete id (it r) ∧
   disk r' = delete (configDir E ++ "/instance-" ++ id ++ ".conf") (disk r)).
Proof.
  intros H. apply Remove_inv in H.
  destruct H as [([e ->] & ? & ?) | (-> & ? & ? & ? & ? & _)].
  - split; [done|]. intros [=].
  - split; [by intros [? [=]]|done].
Qed.

Lemma Remove_all_or_nothing_witness :
  let r' := (Remove Samples.offline Samples.idA Cases.stored).2 in
  (is_Some (@None error) → it r' = it Cases.stored ∧ disk r' = disk Cases.stored) ∧
  (@None error = None →
   valid Samples.idA = true ∧ is_Some (it Cases.stored !! Samples.idA) ∧
   it r' = delete Samples.idA (it Cases.stored) ∧
   disk r' = delete ("/cfg" ++ "/instance-" ++ Samples.idA ++ ".conf")
               (disk Cases.stored)).
Proof.
  apply (Remove_all_or_nothing Samples.offline Samples.idA Cases.stored).
  reflexivity.
Defined.

(** X9: a record that is in the map without its backing file, as after
    [Add] without the persist flag, cannot be removed: [Remove] returns the
    error of the failed file deletion and the record stays in the map. *)
Theorem Remove_needs_the_backing_file (E : Env) (id : string) (r : Repo) :
  valid id = true → is_Some (it r !! id) →
  disk r !! (configDir E ++ "/instance-" ++ id ++ ".conf") = None →
  ∃ r', Remove E id r
        = (Some (ExternalError "no such file or directory"), r') ∧
        it r' = it r ∧ disk r' = disk r.
Proof.
  intros Hv [inst Hl] Hd. unfold Remove, os_Remove. rewrite Hv, Hl. simpl.
  rewrite Hd. eauto.
Qed.

Lemma Remove_needs_the_backing_file_witness :
  let r := (Add Samples.offline Samples.mysqlA false Samples.empty_repo).2 in
  ∃ r', Remove Samples.offline Samples.idA r
        = (Some (ExternalError "no such file or directory"), r') ∧
        it r' = it r ∧ disk r' = disk r.
Proof.
  apply (Remove_needs_the_backing_file Samples.offline Samples.idA).
  - reflexivity.
  - by exists Samples.mysqlA.
  - reflexivity.
Defined.

(** X10: when [Repo.configDir] is the configuration directory of
    [pct.Basedir], [Add] with the persist flag followed by [Remove] of the
    record's id undoes itself: for a well-formed id that was neither in the
    map nor on disk, both calls succeed and the map and the files are what
    they were before. *)
Theorem Add_then_Remove_restores (E : Env) (inst : InstanceConfig) (r : Repo) :
  configDir E = Basedir_config E →
  valid (UUID inst) = true →
  it r !! UUID inst = None →
  disk r !! backing_file E (UUID inst) = None →
  write_error E (backing_file E (UUID inst)) = None →
  remove_error E (backing_file E (UUID inst)) = None →
  ∃ r1 r2, Add E inst true r = (None, r1) ∧
           Remove E (UUID inst) r1 = (None, r2) ∧
           it r2 = it r ∧ disk r2 = disk r.
Proof.
  intros Hdir Hv Hl Hd Hw Hr.
  unfold Add, add, Basedir_WriteConfig. fold (backing_file E (UUID inst)).
  rewrite Hl, Hw. do 2 eexists. split; [done|].
  unfold Remove, os_Remove. rewrite Hv, Hdir. simpl.
  change (Basedir_config E ++ "/instance-" ++ UUID inst ++ ".conf")
    with (backing_file E (UUID inst)).
  rewrite !lookup_insert_eq, Hr. split; [done|]. simpl.
  by rewrite !delete_insert_eq, !delete_id.
Qed.

Lemma Add_then_Remove_restores_witness :
  ∃ r1 r2, Add Samples.offline Samples.mysqlA true Samples.empty_repo
           = (None, r1) ∧
           Remove Samples.offline Samples.idA r1 = (None, r2) ∧
           it r2 = it Samples.empty_repo ∧ disk r2 = disk Samples.empty_repo.
Proof.
  apply (Add_then_Remove_restores Samples.offline Samples.mysqlA
           Samples.empty_repo); reflexivity.
Defined.

(** X11: a record that [Add] has taken is read back as it was given: [Get]
    of its id, when well-formed, returns it without any request, and with
    the persist flag its backing file holds it. *)
Theorem Add_then_read_back (E : Env) (fuel : nat) (inst : InstanceConfig)
    (persist : bool) (r r1 : Repo) :
  Add E inst persist r = (None, r1) →
  (valid (UUID inst) = true →
   Get E (S fuel) (UUID inst) r1 = Returned (Some inst, None) r1) ∧
  (persist = true →
   ReadFile r1 (backing_file E (UUID inst)) = inl (JSONObject inst)).
Proof.
  intros HA. split.
  - intros Hv. destruct (Get_after_Add E fuel inst persist r r1 HA) as [H|H];
      [done|]. unfold Get in H. simpl in H. rewrite Hv in H. simpl in H.
    apply add_grows in HA as (_ & _ & Hin). rewrite (Hin eq_refl) in H.
    discriminate H.
  - intros ->. apply add_inv in HA.
    destruct HA as [(? & _ & [=] & _) | [(? & _ & _ & _ & [=] & _)
                   | [(_ & _ & _ & _ & ->) | (_ & [=] & _)]]].
    unfold ReadFile. simpl. by rewrite lookup_insert_eq.
Qed.

Lemma Add_then_read_back_witness :
  (valid Samples.idA = true →
   Get Samples.offline 1 Samples.idA Cases.stored
   = Returned (Some Samples.mysqlA, None) Cases.stored) ∧
  (true = true →
   ReadFile Cases.stored (backing_file Samples.offline Samples.idA)
   = inl (JSONObject Samples.mysqlA)).
Proof.
  apply (Add_then_read_back Samples.offline 0 Samples.mysqlA true
           Samples.empty_repo Cases.stored).
  reflexivity.
Defined.

(** X12: [Add] does not look at the form of the id.  A record with a
    malformed id is taken, and written to disk with the persist flag; it is
    then in the map and in [List], but [Get] and [Remove] of its id refuse
    the id, so that the record can be neither fetched nor removed. *)
Theorem Add_takes_a_malformed_id (E : Env) (fuel : nat)
    (inst : InstanceConfig) (persist : bool) (r : Repo) :
  valid (UUID inst) = false →
  it r !! UUID inst = None →
  (persist = true → write_error E (backing_file E (UUID inst)) = None) →
  ∃ r1, Add E inst persist r = (None, r1) ∧
        inst ∈ List r1 ∧
        Get E (S fuel) (UUID inst) r1
        = Returned (None, Some (InvalidInstanceError (UUID inst))) r1 ∧
        Remove E (UUID inst) r1 = (Some (InvalidInstanceError (UUID inst)), r1).
Proof.
  intros Hv Hl Hw.
  destruct (Add E inst persist r) as [err r1] eqn:HA. exists r1.
  pose proof (add_inv _ _ _ _ _ _ HA) as Hinv.
  assert (Herr : err = None).
  { destruct Hinv as [(? & ? & _) | [(e & _ & -> & Hw' & _) | [H | H]]];
      [congruence | | tauto | tauto].
    rewrite (Hw eq_refl) in Hw'. discriminate Hw'. }
  subst err. apply add_grows in HA as (_ & _ & Hin).
  specialize (Hin eq_refl). split_and!.
  - done.
  - unfold List. apply list_elem_of_fmap. exists (UUID inst, inst).
    split; [done|]. by apply elem_of_map_to_list.
  - unfold Get. simpl. by rewrite Hv.
  - unfold Remove. by rewrite Hv.
Qed.

Lemma Add_takes_a_malformed_id_witness :
  ∃ r1, Add Samples.offline Samples.malformed true Samples.empty_repo
        = (None, r1) ∧
        Samples.malformed ∈ List r1 ∧
        Get Samples.offline 1 "zz" r1
        = Returned (None, Some (InvalidInstanceError "zz")) r1 ∧
        Remove Samples.offline "zz" r1 = (Some (InvalidInstanceError "zz"), r1).
Proof.
  apply (Add_takes_a_malformed_id Samples.offline 0 Samples.malformed true
           Samples.empty_repo); reflexivity.
Defined.

(** X13: a [Get] that fails can leave a record behind.  When the remote API
    answers the request for an absent id with a record that carries another
    id, which is free, [Get] returns the wrapped Duplicate error, and the
    record it fetched is in the map and in its backing file. *)
Theorem failed_Get_keeps_the_fetched_record (E : Env) (fuel : nat)
    (id : string) (r : Repo) (fetched : InstanceConfig) :
  valid id = true → it r !! id = None → serves E id fetched →
  UUID fetched ≠ id → it r !! UUID fetched = None →
  write_error E (backing_file E (UUID fetched)) = None →
  ∃ r', Get E (S (S fuel)) id r
        = Returned
            (None, Some (FailedToAddError (DuplicateInstanceError (UUID fetched))))
            r' ∧
        it r' !! UUID fetched = Some fetched ∧
        disk r' !! backing_file E (UUID fetched) = Some fetched ∧
        it r' !! id = None.
Proof.
  intros Hv Hl Hs Hid Hn Hw. eexists. split.
  - unfold Get. by apply get_miss_other_id.
  - destruct (after_fetch_added E id fetched r Hn Hw) as (Hit & Hdisk & _).
    simpl. rewrite Hit, Hdisk, !lookup_insert_eq.
    by rewrite lookup_insert_ne.
Qed.

Lemma failed_Get_keeps_the_fetched_record_witness :
  ∃ r', Get (Samples.serving Samples.mysqlB) 2 Samples.idA Samples.empty_repo
        = Returned
            (None, Some (FailedToAddError (DuplicateInstanceError Samples.idB)))
            r' ∧
        it r' !! Samples.idB = Some Samples.mysqlB ∧
        disk r' !! backing_file (Samples.serving Samples.mysqlB) Samples.idB
        = Some Samples.mysqlB ∧
        it r' !! Samples.idA = None.
Proof.
  apply (failed_Get_keeps_the_fetched_record (Samples.serving Samples.mysqlB)
           0 Samples.idA Samples.empty_repo Samples.mysqlB).
  - reflexivity.
  - reflexivity.
  - split; [discriminate | reflexivity].
  - discriminate.
  - reflexivity.
  - reflexivity.
Defined.

(** X14: the operations of the repository keep every record under its own
    UUID: if that holds of the map, it holds after [Add], after [Get]
    whatever its outcome, after [Remove], and after [Init]; consequently a
    record that [Get] returns carries the requested id. *)
Theorem records_are_keyed_by_UUID (E : Env) (r : Repo) :
  keyed r →
  (∀ inst persist, keyed (Add E inst persist r).2) ∧
  (∀ fuel id r', final (Get E fuel id r) = Some r' → keyed r') ∧
  (∀ id, keyed (Remove E id r).2) ∧
  (∀ glob read r', final (Init E glob read r) = Some r' → keyed r') ∧
  (∀ fuel id inst r',
     Get E fuel id r = Returned (Some inst, None) r' → UUID inst = id).
Proof.
  intros Hk. split_and!.
  - intros inst persist. destruct (Add E inst persist r) as [err r'] eqn:HA.
    apply add_grows in HA as (_ & Hk' & _). auto.
  - intros fuel id r' Hfin. pose proof (get_inv E fuel id r) as H.
    unfold Get in Hfin.
    destruct (get E fuel id r) as [[[i|] [e|]] r2|r2|]; simpl in Hfin;
      try done; injection Hfin as <-.
    + destruct H as (_ & _ & H). auto.
    + destruct H as (_ & H). auto.
    + destruct H as (_ & H). auto.
  - intros id. destruct (Remove E id r) as [err r'] eqn:HR.
    apply Remove_inv in HR.
    destruct HR as [(_ & Hit & _) | (_ & _ & _ & Hit & _)]; simpl;
      intros id' inst'; rewrite Hit.
    + apply Hk.
    + intros [_ H]%lookup_delete_Some. by apply Hk.
  - intros glob read r' Hfin. unfold Init, loadInstances in Hfin.
    destruct glob as [files|err].
    + destruct (loadFiles_effects E read files r) as (r2 & Hfin' & _ & _ & _ & H).
      rewrite Hfin in Hfin'. injection Hfin' as <-. auto.
    + simpl in Hfin. by injection Hfin as <-.
  - intros fuel id inst r' HG. pose proof (get_inv E fuel id r) as H.
    unfold Get in HG. rewrite HG in H. destruct H as (Hl & _ & Hk').
    by apply (Hk' Hk).
Qed.

Lemma records_are_keyed_by_UUID_witness :
  (∀ inst persist, keyed (Add Samples.offline inst persist Cases.stored).2) ∧
  (∀ fuel id r',
     final (Get Samples.offline fuel id Cases.stored) = Some r' → keyed r') ∧
  (∀ id, keyed (Remove Samples.offline id Cases.stored).2) ∧
  (∀ glob read r',
     final (Init Samples.offline glob read Cases.stored) = Some r' → keyed r') ∧
  (∀ fuel id inst r',
     Get Samples.offline fuel id Cases.stored = Returned (Some inst, None) r' →
     UUID inst = id).
Proof.
  apply (records_are_keyed_by_UUID Samples.offline Cases.stored).
  apply (keyed_insert
           (set_disk (insert (backing_file Samples.offline Samples.idA)
                        Samples.mysqlA)
              (emit (WriteFile (backing_file Samples.offline Samples.idA))
                 Samples.empty_repo))
           Samples.mysqlA).
  intros id inst H. simpl in H. by rewrite lookup_empty in H.
Defined.

(** ** Monitor: subscriptions and the poll tick *)

(** The two outcomes of [Add]. *)
Lemma monitor_Add_cases (now : string → Z + error) (dsn : string)
    (m : monitor.Monitor) :
  match (monitor.Add now dsn m).1 with
  | (c, Some err) =>
      c = None ∧ monitor.mysqlInstances m !! dsn = None ∧
      now dsn = inr err ∧ (monitor.Add now dsn m).2 = m
  | (c, None) =>
      c = Some (monitor.next_chan m) ∧
      ∃ mi', monitor.mysqlInstances (monitor.Add now dsn m).2 !! dsn = Some mi' ∧
             c ∈ monitor.Subscribers mi' ∧
             match monitor.mysqlInstances m !! dsn with
             | Some mi =>
                 monitor.fingerprint mi' = monitor.fingerprint mi ∧
                 monitor.Subscribers mi' = monitor.Subscribers mi ∪ {[c]}
             | None =>
                 now dsn = inl (monitor.fingerprint mi') ∧
                 monitor.Subscribers mi' = {[c]}
             end
  end ∧
  (∀ dsn', dsn' ≠ dsn →
           monitor.mysqlInstances (monitor.Add now dsn m).2 !! dsn'
           = monitor.mysqlInstances m !! dsn').
Proof.
  unfold monitor.Add, monitor.createMysqlInstance, monitor.NewMysqlInstance,
    monitor.Subscribers_Add, monitor.NewSubscribers.
  destruct (monitor.mysqlInstances m !! dsn) as [mi|] eqn:Hl; simpl.
  - split.
    + split; [done|]. eexists. rewrite lookup_insert_eq. split; [done|].
      simpl. split; [set_solver|done].
    + intros dsn' Hne. by rewrite lookup_insert_ne.
  - destruct (now dsn) as [up|err]; simpl.
    + split.
      * split; [done|]. eexists. rewrite lookup_insert_eq. split; [done|].
        simpl. split; [set_solver|]. split; [done|]. by rewrite (left_id_L ∅ (∪)).
      * intros dsn' Hne. by rewrite !lookup_insert_ne.
    + done.
Qed.

(** X15: what [Add] does.  It fails only for a target that is not watched
    and whose server cannot be read, and then returns the nil channel with
    that error and changes nothing.  Otherwise the channel it returns is
    subscribed to the target; a target that was watched keeps its
    fingerprint and its subscribers, and is not read again.  The entries of
    the other targets are untouched in both cases. *)
Theorem monitor_Add_outcome (now : string → Z + error) (dsn : string)
    (m : monitor.Monitor) :
  match (monitor.Add now dsn m).1 with
  | (c, Some err) =>
      c = None ∧ monitor.mysqlInstances m !! dsn = None ∧
      now dsn = inr err ∧ (monitor.Add now dsn m).2 = m
  | (c, None) =>
      c = Some (monitor.next_chan m) ∧
      ∃ mi', monitor.mysqlInstances (monitor.Add now dsn m).2 !! dsn = Some mi' ∧
             c ∈ monitor.Subscribers mi' ∧
             match monitor.mysqlInstances m !! dsn with
             | Some mi =>
                 monitor.fingerprint mi' = monitor.fingerprint mi ∧
                 monitor.Subscribers mi' = monitor.Subscribers mi ∪ {[c]}
             | None =>
                 now dsn = inl (monitor.fingerprint mi') ∧
                 monitor.Subscribers mi' = {[c]}
             end
  end ∧
  (∀ dsn', dsn' ≠ dsn →
           monitor.mysqlInstances (monitor.Add now dsn m).2 !! dsn'
           = monitor.mysqlInstances m !! dsn').
Proof.
  unfold monitor.Add, monitor.createMysqlInstance, monitor.NewMysqlInstance,
    monitor.Subscribers_Add, monitor.NewSubscribers.
  destruct (monitor.mysqlInstances m !! dsn) as [mi|] eqn:Hl; simpl.
  - split.
    + split; [done|]. eexists. rewrite lookup_insert_eq. split; [done|].
      simpl. split; [set_solver|done].
    + intros dsn' Hne. by rewrite lookup_insert_ne.
  - destruct (now dsn) as [up|err]; simpl.
    + split.
      * split; [done|]. eexists. rewrite lookup_insert_eq. split; [done|].
        simpl. split; [set_solver|]. split; [done|]. by rewrite (left_id_L ∅ (∪)).
      * intros dsn' Hne. by rewrite !lookup_insert_ne.
    + done.
Qed.

Lemma Add_allocated (now : string → Z + error) (dsn : string)
    (m : monitor.Monitor) :
  allocated m → allocated (monitor.Add now dsn m).2.
Proof.
  intros Hinv.
  assert (Hold : ∀ d mi c, monitor.mysqlInstances m !! d = Some mi →
            c ∈ monitor.Subscribers mi →
            ∃ p, c = Some p ∧ (p < Pos.succ (monitor.next_chan m))%positive).
  { intros d mi c Hl Hc. destruct (Hinv d mi c Hl Hc) as (p & -> & Hp).
    exists p. split; [done|lia]. }
  assert (Hnew : ∀ c, c ∈ ({[Some (monitor.next_chan m)]} : gset monitor.chan) →
            ∃ p, c = Some p ∧ (p < Pos.succ (monitor.next_chan m))%positive).
  { intros c ->%elem_of_singleton. eexists. split; [done|lia]. }
  intros dsn' mi' c. unfold monitor.Add, monitor.createMysqlInstance,
    monitor.NewMysqlInstance, monitor.Subscribers_Add, monitor.NewSubscribers.
  destruct (monitor.mysqlInstances m !! dsn) as [mi|] eqn:Hl; simpl.
  - destruct (decide (dsn = dsn')) as [<-|Hne].
    + rewrite lookup_insert_eq. intros [= <-]. simpl.
      intros [Hc|Hc]%elem_of_union; [by eapply Hold | by apply Hnew].
    + rewrite lookup_insert_ne by done. apply Hold.
  - destruct (now dsn) as [up|err]; simpl; [|apply Hinv].
    destruct (decide (dsn = dsn')) as [<-|Hne].
    + rewrite lookup_insert_eq. intros [= <-]. simpl.
      intros [Hc|Hc]%elem_of_union; [set_solver | by apply Hnew].
    + rewrite !lookup_insert_ne by done. apply Hold.
Qed.

Lemma Remove_allocated (dsn : string) (c : monitor.chan) (m : monitor.Monitor) :
  allocated m → allocated (monitor.Remove dsn c m).
Proof.
  intros Hinv dsn' mi' c'. unfold monitor.Remove.
  destruct (monitor.mysqlInstances m !! dsn) as [mi|] eqn:Hl; [|apply Hinv].
  destruct (monitor.Subscribers_Empty _); simpl.
  - intros [_ H]%lookup_delete_Some. exact (Hinv _ _ _ H).
  - destruct (decide (dsn = dsn')) as [<-|Hne].
    + rewrite lookup_insert_eq. intros [= <-]. simpl.
      intros [Hc _]%elem_of_difference. by eapply Hinv.
    + rewrite lookup_insert_ne by done. apply Hinv.
Qed.

Lemma Check_allocated (now : string → Z + error) (m : monitor.Monitor) :
  allocated m → allocated (monitor.Check now m).1.
Proof.
  intros Hinv dsn mi' c. rewrite Check_table.
  assert (Hnext : monitor.next_chan (monitor.Check now m).1 = monitor.next_chan m).
  { unfold monitor.Check. by destruct (foldl _ _ _). }
  rewrite Hnext.
  destruct (monitor.mysqlInstances m !! dsn) as [mi|] eqn:Hl; [|done].
  simpl. intros [= <-]. rewrite CheckIfMysqlRestarted_Subscribers.
  exact (Hinv _ _ _ Hl).
Qed.

Lemma reachable_allocated (m : monitor.Monitor) :
  monitor.reachable m → allocated m.
Proof.
  induction 1 as [|o m _ IH].
  - intros dsn mi c. unfold monitor.NewMonitor; simpl. by rewrite lookup_empty.
  - destruct o as [now dsn|dsn c|now]; simpl.
    + by apply Add_allocated.
    + by apply Remove_allocated.
    + by apply Check_allocated.
Qed.

Lemma monitor_Add_fresh (now : string → Z + error)
    (dsn : string) (m : monitor.Monitor) (c : monitor.chan)
    (m' : monitor.Monitor) :
  monitor.reachable m →
  monitor.Add now dsn m = ((c, None), m') →
  c ≠ None ∧
  ∀ dsn' mi, monitor.mysqlInstances m !! dsn' = Some mi →
             c ∉ monitor.Subscribers mi.
Proof.
  intros Hr HA. apply reachable_allocated in Hr.
  pose proof (monitor_Add_cases now dsn m) as [H _]. rewrite HA in H.
  simpl in H. destruct H as (-> & _). split; [done|].
  intros dsn' mi Hl Hc. destruct (Hr dsn' mi _ Hl Hc) as (p & [= <-] & Hp). lia.
Qed.

(** X16: every subscription has a channel of its own.  In a state reachable
    from [NewMonitor], the channel that a successful [Add] returns is not
    nil and is subscribed to no target before the call. *)
Theorem monitor_Add_returns_a_new_channel (now : string → Z + error)
    (dsn : string) (m : monitor.Monitor) (c : monitor.chan)
    (m' : monitor.Monitor) :
  monitor.reachable m →
  monitor.Add now dsn m = ((c, None), m') →
  c ≠ None ∧
  ∀ dsn' mi, monitor.mysqlInstances m !! dsn' = Some mi →
             c ∉ monitor.Subscribers mi.
Proof.
  intros Hr HA. apply reachable_allocated in Hr.
  pose proof (monitor_Add_cases now dsn m) as [H _]. rewrite HA in H.
  simpl in H. destruct H as (-> & _). split; [done|].
  intros dsn' mi Hl Hc. destruct (Hr dsn' mi _ Hl Hc) as (p & [= <-] & Hp). lia.
Qed.

Lemma monitor_Add_returns_a_new_channel_witness :
  Some 2%positive ≠ None ∧
  ∀ dsn' mi, monitor.mysqlInstances Samples.watching !! dsn' = Some mi →
             Some 2%positive ∉ monitor.Subscribers mi.
Proof.
  apply (monitor_Add_returns_a_new_channel (λ _, inl 1000%Z)
           "test:test@localhost/db1" Samples.watching (Some 2%positive)
           Cases.watching_twice).
  - apply monitor.reachable_step, monitor.reachable_new.
  - reflexivity.
Defined.

(** X17: [Add] followed by [Remove] of the channel it returned gives back
    the watch table, in every state reachable from [NewMonitor]: a target
    that was not watched is not watched again, and a target that was watched
    has the subscribers and the fingerprint it had. *)
Theorem monitor_Add_then_Remove (now : string → Z + error) (dsn : string)
    (m : monitor.Monitor) (c : monitor.chan) (m' : monitor.Monitor) :
  monitor.reachable m →
  monitor.Add now dsn m = ((c, None), m') →
  monitor.mysqlInstances (monitor.Remove dsn c m') = monitor.mysqlInstances m.
Proof.
  intros Hr HA.
  destruct (monitor_Add_fresh now dsn m c m' Hr HA) as [_ Hfresh].
  pose proof (reachable_subscribed m Hr) as Hsub.
  pose proof (monitor_Add_cases now dsn m) as [H Hframe].
  rewrite HA in H, Hframe.
  simpl in H, Hframe. destruct H as (_ & mi' & Hl' & _ & H).
  unfold monitor.Remove. rewrite Hl'.
  destruct (monitor.mysqlInstances m !! dsn) as [mi|] eqn:Hl.
  - destruct H as [Hfp Hs].
    assert (Hback : monitor.Subscribers_Remove c mi' = mi).
    { unfold monitor.Subscribers_Remove. rewrite Hfp, Hs.
      destruct mi as [subs fp]; simpl in *. f_equal.
      specialize (Hfresh dsn _ Hl). simpl in Hfresh.
      apply set_eq. intros x. rewrite elem_of_difference, elem_of_union,
        elem_of_singleton. split; [tauto|]. intros Hx. split; [tauto|].
      by intros ->. }
    rewrite Hback.
    destruct (monitor.Subscribers_Empty mi) eqn:He.
    { apply Subscribers_Empty_spec in He. by destruct (Hsub dsn mi Hl). }
    simpl. apply map_eq. intros d. destruct (decide (dsn = d)) as [<-|Hne].
    + by rewrite lookup_insert_eq.
    + rewrite lookup_insert_ne by done. apply Hframe. congruence.
  - destruct H as [_ Hs].
    assert (He : monitor.Subscribers_Empty (monitor.Subscribers_Remove c mi')
                 = true).
    { apply Subscribers_Empty_spec. simpl. rewrite Hs. apply difference_diag_L. }
    rewrite He. simpl. apply map_eq. intros d.
    destruct (decide (dsn = d)) as [<-|Hne].
    + by rewrite lookup_delete_eq.
    + rewrite lookup_delete_ne by done. apply Hframe. congruence.
Qed.

Lemma monitor_Add_then_Remove_witness :
  monitor.mysqlInstances
    (monitor.Remove "test:test@localhost/db1" (Some 2%positive)
       Cases.watching_twice)
  = monitor.mysqlInstances Samples.watching.
Proof.
  apply (monitor_Add_then_Remove (λ _, inl 1000%Z) "test:test@localhost/db1"
           Samples.watching (Some 2%positive) Cases.watching_twice).
  - apply monitor.reachable_step, monitor.reachable_new.
  - reflexivity.
Defined.

Lemma Check_turns_entries (now : string → Z + error)
    (l : list (string * monitor.MysqlInstance))
    (acc : gmap string monitor.MysqlInstance * list (string * gset monitor.chan)) :
  (foldl (monitor.Check_turn now) acc l).2 =
  (acc.2 ++
   ((λ e : string * monitor.MysqlInstance,
       (e.1, if (monitor.CheckIfMysqlRestarted now e.1 e.2).1
             then monitor.Subscribers e.2 else ∅)) <$> l))%list.
Proof.
  revert acc. induction l as [|[k v] l IH]; intros acc.
  - simpl. by rewrite app_nil_r.
  - cbn [foldl]. rewrite IH. unfold monitor.Check_turn.
    pose proof (CheckIfMysqlRestarted_Subscribers now k v) as Hs.
    rewrite fmap_cons. cbn [fst snd].
    destruct (monitor.CheckIfMysqlRestarted now k v) as [restarted v'].
    simpl in *. rewrite Hs, <- app_assoc. done.
Qed.

(** X18: one poll tick checks every watched target once, and it signals
    exactly the subscribers of the targets whose check reports a restart:
    the tick records, for a target and a set of channels, that it sent the
    signal to them if and only if the target is watched and the set is that
    of its subscribers when the check reports a restart, and empty when it
    does not.  The tick keeps the targets and their subscribers. *)
Theorem Check_signals_the_restarted (now : string → Z + error)
    (m : monitor.Monitor) :
  (∀ dsn signalled,
     (dsn, signalled) ∈ (monitor.Check now m).2 ↔
     ∃ mi, monitor.mysqlInstances m !! dsn = Some mi ∧
           signalled = if (monitor.CheckIfMysqlRestarted now dsn mi).1
                       then monitor.Subscribers mi else ∅) ∧
  NoDup (monitor.checked now m) ∧
  (∀ dsn, monitor.Subscribers
            <$> monitor.mysqlInstances (monitor.Check now m).1 !! dsn
          = monitor.Subscribers <$> monitor.mysqlInstances m !! dsn).
Proof.
  split_and!.
  - intros dsn signalled. unfold monitor.Check.
    pose proof (Check_turns_entries now (map_to_list (monitor.mysqlInstances m))
                  (monitor.mysqlInstances m, [])) as H.
    destruct (foldl _ _ _) as [tbl log]. simpl in *. subst log.
    rewrite list_elem_of_fmap. split.
    + intros ([k v] & [= -> ->] & Hin). apply elem_of_map_to_list in Hin.
      by exists v.
    + intros (mi & Hl & ->). exists (dsn, mi). split; [done|].
      by apply elem_of_map_to_list.
  - unfold monitor.checked, monitor.Check.
    pose proof (Check_turns_log now (map_to_list (monitor.mysqlInstances m))
                  (monitor.mysqlInstances m, [])) as H.
    destruct (foldl _ _ _) as [tbl log]. simpl in *. rewrite H.
    apply NoDup_fst_map_to_list.
  - intros dsn. rewrite Check_table.
    destruct (monitor.mysqlInstances m !! dsn) as [mi|]; [|done].
    simpl. by rewrite CheckIfMysqlRestarted_Subscribers.
Qed.

(** ** Manager: the commands and the restart monitor *)

Lemma refreshes_refl (inst : InstanceConfig) : refreshes inst inst.
Proof. by split_and!. Qed.

Lemma pushInstanceInfo_emits (E : Env) (inst : InstanceConfig) (w : Repo) :
  (pushInstanceInfo E inst w).2
  = emit (HttpPut (api_ApiKey E) (api_EntryLink E "insts" ++ "/" ++ UUID inst)) w.
Proof.
  unfold pushInstanceInfo.
  destruct (api_Put E _ _ inst) as [[code|] [err|]]; try done.
  by destruct (negb _).
Qed.

(** The three outcomes of [GetMySQLInfo]: the error of the probe, with the
    record as it was; the panic on a nil [Properties]; or the record with
    the three properties written. *)
Lemma GetMySQLInfo_cases (E : Env) (inst : InstanceConfig) (w : Repo) :
  (∃ err, mysql_info E (prop_get inst "dsn") = inr err ∧
          GetMySQLInfo E inst w
          = Returned (Some err, inst)
              (emit (MySQLConnect (prop_get inst "dsn")) w)) ∨
  (Properties inst = None ∧
   GetMySQLInfo E inst w
   = Panicked (emit (MySQLConnect (prop_get inst "dsn")) w)) ∨
  (∃ hostname distro version inst',
     mysql_info E (prop_get inst "dsn") = inl (hostname, distro, version) ∧
     GetMySQLInfo E inst w
     = Returned (None, inst') (emit (MySQLConnect (prop_get inst "dsn")) w) ∧
     refreshes inst inst' ∧
     prop_lookup inst' "hostname" = Some hostname ∧
     prop_lookup inst' "distro" = Some distro ∧
     prop_lookup inst' "version" = Some version).
Proof.
  unfold GetMySQLInfo.
  destruct (mysql_info E _) as [[[hostname distro] version]|err]; [|eauto].
  destruct (Properties inst) as [ps|] eqn:Hps; [|eauto].
  right; right. do 4 eexists. split_and!; [done..| | | | ].
  - split_and!; [done..|]. intros k H1 H2 H3. unfold prop_lookup. simpl.
    rewrite Hps. by rewrite !lookup_insert_ne by done.
  - unfold prop_lookup. simpl.
    do 2 (rewrite lookup_insert_ne by done). by rewrite lookup_insert_eq.
  - unfold prop_lookup. simpl.
    rewrite lookup_insert_ne by done. by rewrite lookup_insert_eq.
  - unfold prop_lookup. simpl. by rewrite lookup_insert_eq.
Qed.

Lemma onlyMySQLInsts_filter (slice : list InstanceConfig) :
  onlyMySQLInsts slice = List.filter isMySQLConfig slice.
Proof.
  unfold onlyMySQLInsts.
  enough (H : ∀ acc,
    foldl (λ justMySQL inst,
             if isMySQLConfig inst then (justMySQL ++ [inst])%list
             else justMySQL) acc slice
    = (acc ++ List.filter isMySQLConfig slice)%list) by apply (H []).
  induction slice as [|inst slice IH]; intros acc; simpl.
  - by rewrite app_nil_r.
  - rewrite IH. destruct (isMySQLConfig inst); [|done].
    by rewrite <- app_assoc.
Qed.

(** X19: [GetMySQLInstances] returns the records of the registry that are
    MySQL records, all of them and no other, in the order of [List]. *)
Theorem GetMySQLInstances_spec (m : Manager) :
  GetMySQLInstances m = List.filter isMySQLConfig (List (repo m)) ∧
  ∀ inst, inst ∈ GetMySQLInstances m ↔
          isMySQLConfig inst = true ∧ ∃ id, it (repo m) !! id = Some inst.
Proof.
  unfold GetMySQLInstances. rewrite onlyMySQLInsts_filter. split; [done|].
  intros inst. rewrite list_elem_of_In, List.filter_In, <- list_elem_of_In.
  unfold List. rewrite list_elem_of_fmap. split.
  - intros [([id i] & -> & Hin) Hmy]. split; [done|]. exists id.
    by apply elem_of_map_to_list.
  - intros [Hmy (id & Hl)]. split; [|done]. exists (id, inst).
    split; [done|]. by apply elem_of_map_to_list.
Qed.

(** What the command Add leaves behind when the store takes the record. *)
Lemma Handle_Add_stored (E : Env) (fuel : nat) (inst : InstanceConfig)
    (m : Manager) :
  it (repo m) !! UUID inst = None →
  write_error E (backing_file E (UUID inst)) = None →
  ∃ m' kept,
    Handle_Add E (S fuel) (Some inst) m = Returned (cmd_Reply None None) m' ∧
    it (repo m') = <[UUID inst := kept]> (it (repo m)) ∧
    refreshes inst kept ∧
    disk (repo m')
    = <[backing_file E (UUID inst) := inst]> (disk (repo m)) ∧
    (valid (UUID inst) = true → isMySQLConfig inst = true →
     ∀ dsn c mon,
       prop_lookup inst "dsn" = Some dsn →
       monitor.Add (mysql_uptime E) dsn (mrm m) = ((c, None), mon) →
       mrm m' = mon ∧ mrmChans m' = <[dsn := c]> (mrmChans m)).
Proof.
  intros Hl Hw. unfold Handle_Add, Add, add, Basedir_WriteConfig.
  fold (backing_file E (UUID inst)). rewrite Hl, Hw.
  remember (set_it (insert (UUID inst) inst)
              (set_disk (insert (backing_file E (UUID inst)) inst)
                 (emit (WriteFile (backing_file E (UUID inst))) (repo m))))
    as r1 eqn:Hr1.
  assert (Hit1 : it r1 = <[UUID inst := inst]> (it (repo m))) by by subst r1.
  assert (Hdisk1 : disk r1
                   = <[backing_file E (UUID inst) := inst]> (disk (repo m)))
    by by subst r1.
  assert (Hin : it r1 !! UUID inst = Some inst)
    by (rewrite Hit1; apply lookup_insert_eq).
  clear Hr1.
  unfold Get. destruct (valid (UUID inst)) eqn:Hv; cycle 1.
  { simpl. rewrite Hv. simpl. exists (set_repo r1 m), inst.
    split_and!; [done|done|apply refreshes_refl|done|done]. }
  rewrite (get_hit E fuel _ r1 inst Hv Hin).
  destruct (isMySQLConfig inst) eqn:Hmy; cycle 1.
  { exists (set_repo r1 m), inst.
    split_and!; [done|done|apply refreshes_refl|done|done]. }
  destruct (prop_lookup inst "dsn") as [dsn|] eqn:Hdsn; cycle 1.
  { exists (set_repo r1 m), inst.
    split_and!; [done|done|apply refreshes_refl|done|]. by intros _ _ ????. }
  cbn [set_repo mrm].
  destruct (monitor.Add (mysql_uptime E) dsn (mrm m)) as [[ch [err|]] mon]
    eqn:Hmon.
  { eexists _, inst.
    split_and!; [done|done|apply refreshes_refl|done|].
    intros _ _ ??? [= <-] H. rewrite Hmon in H. discriminate H. }
  change (repo (set_mrmChans dsn ch (set_mrm mon (set_repo r1 m)))) with r1.
  destruct (GetMySQLInfo_cases E inst r1)
    as [(err & _ & ->) | [(Hnil & _) | (h & d & v & kept & _ & -> & Hk & _)]].
  - eexists _, inst. split_and!; [done|done|apply refreshes_refl|done|].
    intros _ _ ??? [= <-] H. rewrite Hmon in H. by injection H as <- <-.
  - destruct (prop_lookup_Some _ _ _ Hdsn) as [ps Hps]. congruence.
  - destruct (pushInstanceInfo E kept _) as [err r2] eqn:Hpush.
    pose proof (pushInstanceInfo_emits E kept
                  (set_it (insert (UUID kept) kept)
                     (emit (MySQLConnect (prop_get inst "dsn")) r1))) as Hr2.
    rewrite Hpush in Hr2. simpl in Hr2. subst r2.
    eexists _, kept. destruct Hk as (Hu & ? & ? & ?).
    split_and!; [done| |done|done|].
    + simpl. rewrite Hu, Hit1. apply insert_insert_eq.
    + intros _ _ ??? [= <-] H. rewrite Hmon in H. by injection H as <- <-.
Qed.

(** X20: when the map has no record of the id and the file can be written,
    the command Add is answered without error, whatever the monitor, the
    probe and the push do; afterwards the backing file holds the record as
    it was sent, and the map holds under its UUID a record with the same
    UUID, type and prefix and the same properties, up to "hostname",
    "distro" and "version", which a successful probe has written: the
    refreshed properties are kept in memory and are not written to the
    file. *)
Theorem Handle_Add_stores_the_record (E : Env) (fuel : nat) (cmd : Cmd)
    (inst : InstanceConfig) (m : Manager) :
  Cmd_ cmd = "Add" → Data cmd = JSONObject inst →
  it (repo m) !! UUID inst = None →
  write_error E (backing_file E (UUID inst)) = None →
  ∃ m' kept,
    Handle E (S fuel) cmd m = Returned (cmd_Reply None None) m' ∧
    it (repo m') = <[UUID inst := kept]> (it (repo m)) ∧
    refreshes inst kept ∧
    disk (repo m') = <[backing_file E (UUID inst) := inst]> (disk (repo m)).
Proof.
  intros Hcmd Hdata Hl Hw.
  rewrite (proj1 (Handle_dispatch E (S fuel) cmd inst m Hdata) Hcmd).
  destruct (Handle_Add_stored E fuel inst m Hl Hw)
    as (m' & kept & ? & ? & ? & ? & _).
  by exists m', kept.
Qed.

Lemma Handle_Add_stores_the_record_witness :
  ∃ m' kept,
    Handle Samples.offline 1 (Samples.command "Add" Samples.mysqlA)
      Samples.empty_manager = Returned (cmd_Reply None None) m' ∧
    it (repo m') = <[Samples.idA := kept]> (it Samples.empty_repo) ∧
    refreshes Samples.mysqlA kept ∧
    disk (repo m')
    = <[backing_file Samples.offline Samples.idA := Samples.mysqlA]>
        (disk Samples.empty_repo).
Proof.
  apply (Handle_Add_stores_the_record Samples.offline 0
           (Samples.command "Add" Samples.mysqlA) Samples.mysqlA
           Samples.empty_manager); reflexivity.
Defined.

(** X21: after the command Add of a MySQL record to a manager whose
    registry is empty, [GetMySQLInstances] returns exactly one record, and
    it carries the UUID that was sent. *)
Theorem Handle_Add_then_GetMySQLInstances (E : Env) (fuel : nat) (cmd : Cmd)
    (inst : InstanceConfig) (m : Manager) :
  Cmd_ cmd = "Add" → Data cmd = JSONObject inst →
  it (repo m) = ∅ → isMySQLConfig inst = true →
  write_error E (backing_file E (UUID inst)) = None →
  ∃ m' kept,
    Handle E (S fuel) cmd m = Returned (cmd_Reply None None) m' ∧
    GetMySQLInstances m' = [kept] ∧ UUID kept = UUID inst.
Proof.
  intros Hcmd Hdata Hempty Hmy Hw.
  rewrite (proj1 (Handle_dispatch E (S fuel) cmd inst m Hdata) Hcmd).
  destruct (Handle_Add_stored E fuel inst m) as
    (m' & kept & HH & Hit & (Hu & Ht & Hp & _) & _); [by rewrite Hempty|done|].
  exists m', kept. split_and!; [done| |done].
  unfold GetMySQLInstances. rewrite onlyMySQLInsts_filter. unfold List.
  rewrite Hit, Hempty, insert_empty, map_to_list_singleton. simpl.
  unfold isMySQLConfig in *. by rewrite Ht, Hp, Hmy.
Qed.

Lemma Handle_Add_then_GetMySQLInstances_witness :
  ∃ m' kept,
    Handle Samples.offline 1 (Samples.command "Add" Samples.mysqlA)
      Samples.empty_manager = Returned (cmd_Reply None None) m' ∧
    GetMySQLInstances m' = [kept] ∧ UUID kept = Samples.idA.
Proof.
  apply (Handle_Add_then_GetMySQLInstances Samples.offline 0
           (Samples.command "Add" Samples.mysqlA) Samples.mysqlA
           Samples.empty_manager); reflexivity.
Defined.

(** X22: the command Add of a MySQL record with a well-formed id and a
    "dsn" property registers the server with the restart monitor, when the
    monitor already watches it or can read it: afterwards the monitor
    watches the DSN, and the channel that the manager keeps for the DSN is
    one of its subscribers.  This holds also when the probe or the push
    that follow fail. *)
Theorem Handle_Add_subscribes (E : Env) (fuel : nat) (cmd : Cmd)
    (inst : InstanceConfig) (m : Manager) (dsn : string) :
  Cmd_ cmd = "Add" → Data cmd = JSONObject inst →
  it (repo m) !! UUID inst = None →
  write_error E (backing_file E (UUID inst)) = None →
  valid (UUID inst) = true → isMySQLConfig inst = true →
  prop_lookup inst "dsn" = Some dsn →
  (is_Some (monitor.mysqlInstances (mrm m) !! dsn) ∨
   ∃ up, mysql_uptime E dsn = inl up) →
  ∃ m' c mi,
    Handle E (S fuel) cmd m = Returned (cmd_Reply None None) m' ∧
    mrmChans m' !! dsn = Some c ∧
    monitor.mysqlInstances (mrm m') !! dsn = Some mi ∧
    c ∈ monitor.Subscribers mi.
Proof.
  intros Hcmd Hdata Hl Hw Hv Hmy Hdsn Hmon.
  rewrite (proj1 (Handle_dispatch E (S fuel) cmd inst m Hdata) Hcmd).
  destruct (Handle_Add_stored E fuel inst m Hl Hw)
    as (m' & kept & HH & _ & _ & _ & Hsub).
  pose proof (monitor_Add_cases (mysql_uptime E) dsn (mrm m)) as [H _].
  destruct (monitor.Add (mysql_uptime E) dsn (mrm m)) as [[c [err|]] mon]
    eqn:HA; simpl in H.
  - destruct H as (_ & Hnone & Herr & _).
    destruct Hmon as [[mi Hmi] | [up Hup]]; congruence.
  - destruct H as (_ & mi' & Hl' & Hc & _).
    destruct (Hsub Hv Hmy dsn c mon Hdsn HA) as [Hmrm Hchans].
    exists m', c, mi'. rewrite Hmrm, Hchans. split_and!; [done| |done|done].
    apply lookup_insert_eq.
Qed.

Lemma Handle_Add_subscribes_witness :
  ∃ m' c mi,
    Handle Samples.offline 1 (Samples.command "Add" Samples.mysqlA)
      Samples.empty_manager = Returned (cmd_Reply None None) m' ∧
    mrmChans m' !! "test:test@localhost/db1" = Some c ∧
    monitor.mysqlInstances (mrm m') !! "test:test@localhost/db1" = Some mi ∧
    c ∈ monitor.Subscribers mi.
Proof.
  apply (Handle_Add_subscribes Samples.offline 0
           (Samples.command "Add" Samples.mysqlA) Samples.mysqlA
           Samples.empty_manager "test:test@localhost/db1");
    try reflexivity.
  right. by exists 1000%Z.
Defined.

(** The command Remove for a record that the registry resolves: the
    monitor is told only when the stored record is a MySQL record with a
    "dns" property, and the store's [Remove] decides the reply. *)
Lemma Handle_Remove_resolved (E : Env) (fuel : nat) (inst kept : InstanceConfig)
    (m : Manager) :
  valid (UUID inst) = true → it (repo m) !! UUID inst = Some kept →
  UUID kept = UUID inst →
  Handle_Remove E (S fuel) (Some inst) m =
    let m1 :=
      if isMySQLConfig kept then
        match prop_lookup kept "dns" with
        | Some dns =>
            set_mrm (monitor.Remove dns (mrmChans_get m dns) (mrm m)) m
        | None => m
        end
      else m in
    Returned (cmd_Reply None (Remove E (UUID inst) (repo m)).1)
      (set_repo (Remove E (UUID inst) (repo m)).2 m1).
Proof.
  intros Hv Hl Hu. unfold Handle_Remove, Get.
  rewrite (get_hit E fuel _ (repo m) kept Hv Hl), set_repo_same, Hu.
  destruct (isMySQLConfig kept); [|by destruct (Remove E _ _)].
  destruct (prop_lookup kept "dns"); simpl; by destruct (Remove E _ _).
Qed.

(** X23: the command Remove for a well-formed id whose record is in the map
    and whose backing file can be deleted is answered without error; the
    entry and the file are gone; the channels the manager keeps are as they
    were; and the monitor is left alone unless the stored record is a MySQL
    record with a property "dns", in which case the channel kept for that
    property's value is removed from that target. *)
Theorem Handle_Remove_removes (E : Env) (fuel : nat) (cmd : Cmd)
    (inst kept : InstanceConfig) (m : Manager) :
  Cmd_ cmd = "Remove" → Data cmd = JSONObject inst →
  valid (UUID inst) = true →
  it (repo m) !! UUID inst = Some kept → UUID kept = UUID inst →
  is_Some (disk (repo m)
             !! (configDir E ++ "/instance-" ++ UUID inst ++ ".conf")) →
  remove_error E (configDir E ++ "/instance-" ++ UUID inst ++ ".conf") = None →
  ∃ m', Handle E (S fuel) cmd m = Returned (cmd_Reply None None) m' ∧
        it (repo m') = delete (UUID inst) (it (repo m)) ∧
        disk (repo m')
        = delete (configDir E ++ "/instance-" ++ UUID inst ++ ".conf")
            (disk (repo m)) ∧
        mrmChans m' = mrmChans m ∧
        mrm m' = if isMySQLConfig kept then
                   match prop_lookup kept "dns" with
                   | Some dns =>
                       monitor.Remove dns (mrmChans_get m dns) (mrm m)
                   | None => mrm m
                   end
                 else mrm m.
Proof.
  intros Hcmd Hdata Hv Hl Hu [f Hf] Hr.
  rewrite (proj1 (proj2 (Handle_dispatch E (S fuel) cmd inst m Hdata)) Hcmd).
  rewrite (Handle_Remove_resolved E fuel inst kept m Hv Hl Hu).
  assert (HR : Remove E (UUID inst) (repo m)
               = (None,
                  set_it (delete (UUID inst))
                    (set_disk
                       (delete
                          (configDir E ++ "/instance-" ++ UUID inst ++ ".conf"))
                       (emit
                          (RemoveFile
                             (configDir E ++ "/instance-" ++ UUID inst ++ ".conf"))
                          (repo m))))).
  { unfold Remove, os_Remove. rewrite Hv, Hl. simpl. by rewrite Hf, Hr. }
  rewrite HR. simpl. eexists. split; [done|].
  destruct (isMySQLConfig kept); [|done].
  by destruct (prop_lookup kept "dns").
Qed.

Lemma Handle_Remove_removes_witness :
  ∃ m', Handle Samples.offline 1 (Samples.command "Remove" Samples.mysqlA)
          Cases.added = Returned (cmd_Reply None None) m' ∧
        it (repo m') = delete Samples.idA (it (repo Cases.added)) ∧
        disk (repo m')
        = delete ("/cfg" ++ "/instance-" ++ Samples.idA ++ ".conf")
            (disk (repo Cases.added)) ∧
        mrmChans m' = mrmChans Cases.added ∧
        mrm m' = mrm Cases.added.
Proof.
  refine (Handle_Remove_removes Samples.offline 0
            (Samples.command "Remove" Samples.mysqlA) Samples.mysqlA
            {| UUID := Samples.idA; Type_ := "MySQL"; Prefix := "mysql";
               Properties :=
                 Some (<["version" := "5.6.24"]>
                         (<["distro" := "MySQL Community Server"]>
                            (<["hostname" := "db1"]>
                               {[ "dsn" := "test:test@localhost/db1" ]}))) |}
            Cases.added _ _ _ _ _ _ _); try reflexivity.
  by eexists.
Defined.

(** X24: the command Add followed by the command Remove for the same MySQL
    record, which names its server under "dsn" as Add reads it and has no
    property "dns": both commands are answered without error and the record
    and its file are gone, but the server is still watched by the monitor,
    and the channel that Add subscribed is still subscribed and still kept
    by the manager, because Remove looks for the server under "dns". *)
Theorem Add_then_Remove_keeps_the_subscription (E : Env) (fuel : nat)
    (add remove : Cmd) (inst : InstanceConfig) (m : Manager) (dsn : string) :
  Cmd_ add = "Add" → Data add = JSONObject inst →
  Cmd_ remove = "Remove" → Data remove = JSONObject inst →
  configDir E = Basedir_config E →
  valid (UUID inst) = true → isMySQLConfig inst = true →
  prop_lookup inst "dsn" = Some dsn → prop_lookup inst "dns" = None →
  it (repo m) !! UUID inst = None →
  write_error E (backing_file E (UUID inst)) = None →
  remove_error E (backing_file E (UUID inst)) = None →
  (is_Some (monitor.mysqlInstances (mrm m) !! dsn) ∨
   ∃ up, mysql_uptime E dsn = inl up) →
  ∃ m1 m2 c mi,
    Handle E (S fuel) add m = Returned (cmd_Reply None None) m1 ∧
    Handle E (S fuel) remove m1 = Returned (cmd_Reply None None) m2 ∧
    it (repo m2) !! UUID inst = None ∧
    disk (repo m2) !! backing_file E (UUID inst) = None ∧
    mrmChans m2 !! dsn = Some c ∧
    monitor.mysqlInstances (mrm m2) !! dsn = Some mi ∧
    c ∈ monitor.Subscribers mi.
Proof.
  intros Hadd Hdadd Hrem Hdrem Hdir Hv Hmy Hdsn Hdns Hl Hw Hr Hmon.
  rewrite (proj1 (Handle_dispatch E (S fuel) add inst m Hdadd) Hadd).
  destruct (Handle_Add_stored E fuel inst m Hl Hw)
    as (m1 & kept & -> & Hit & (Hu & Ht & Hp & Hprops) & Hdisk & Hsub).
  pose proof (monitor_Add_cases (mysql_uptime E) dsn (mrm m)) as [H _].
  destruct (monitor.Add (mysql_uptime E) dsn (mrm m)) as [[c [err|]] mon]
    eqn:HA; simpl in H.
  { destruct H as (_ & Hnone & Herr & _).
    destruct Hmon as [[mi Hmi] | [up Hup]]; congruence. }
  destruct H as (_ & mi & Hmi & Hc & _).
  destruct (Hsub Hv Hmy dsn c mon Hdsn HA) as [Hmrm Hchans].
  assert (Hfile : configDir E ++ "/instance-" ++ UUID inst ++ ".conf"
                  = backing_file E (UUID inst)) by (by rewrite Hdir).
  assert (Hkept : it (repo m1) !! UUID inst = Some kept)
    by (rewrite Hit; apply lookup_insert_eq).
  assert (Hnodns : prop_lookup kept "dns" = None)
    by (by rewrite Hprops).
  exists m1.
  rewrite (proj1 (proj2 (Handle_dispatch E (S fuel) remove inst m1 Hdrem)) Hrem).
  rewrite (Handle_Remove_resolved E fuel inst kept m1 Hv Hkept Hu), Hnodns.
  assert (HR : Remove E (UUID inst) (repo m1)
               = (None,
                  set_it (delete (UUID inst))
                    (set_disk (delete (backing_file E (UUID inst)))
                       (emit (RemoveFile (backing_file E (UUID inst)))
                          (repo m1))))).
  { unfold Remove, os_Remove. rewrite Hv, Hkept, Hfile. simpl.
    by rewrite Hdisk, lookup_insert_eq, Hr. }
  rewrite HR. eexists. exists c, mi. split; [done|].
  split; [by destruct (isMySQLConfig kept)|].
  destruct (isMySQLConfig kept); simpl;
    rewrite !lookup_delete_eq, Hchans, Hmrm, lookup_insert_eq; done.
Qed.

Lemma Add_then_Remove_keeps_the_subscription_witness :
  ∃ m1 m2 c mi,
    Handle Samples.offline 1 (Samples.command "Add" Samples.mysqlA)
      Samples.empty_manager = Returned (cmd_Reply None None) m1 ∧
    Handle Samples.offline 1 (Samples.command "Remove" Samples.mysqlA) m1
    = Returned (cmd_Reply None None) m2 ∧
    it (repo m2) !! Samples.idA = None ∧
    disk (repo m2) !! backing_file Samples.offline Samples.idA = None ∧
    mrmChans m2 !! "test:test@localhost/db1" = Some c ∧
    monitor.mysqlInstances (mrm m2) !! "test:test@localhost/db1" = Some mi ∧
    c ∈ monitor.Subscribers mi.
Proof.
  apply (Add_then_Remove_keeps_the_subscription Samples.offline 0
           (Samples.command "Add" Samples.mysqlA)
           (Samples.command "Remove" Samples.mysqlA) Samples.mysqlA
           Samples.empty_manager "test:test@localhost/db1");
    try reflexivity.
  right. by exists 1000%Z.
Defined.

(** X25: the command GetInfo never changes the registry, the monitor or
    the channels the manager keeps, whatever the record and whatever the
    probe answers, and also when it panics; for a record that is not a MySQL
    record nothing at all changes.  When a reply is returned, its data is the
    record that was sent, up to the three probed properties. *)
Theorem Handle_GetInfo_changes_nothing (E : Env) (fuel : nat) (cmd : Cmd)
    (inst : InstanceConfig) (m : Manager) :
  Cmd_ cmd = "GetInfo" → Data cmd = JSONObject inst →
  ∃ m', final (Handle E fuel cmd m) = Some m' ∧
        it (repo m') = it (repo m) ∧ disk (repo m') = disk (repo m) ∧
        mrm m' = mrm m ∧ mrmChans m' = mrmChans m ∧
        (isMySQLConfig inst = false → m' = m) ∧
        (∀ reply, Handle E fuel cmd m = Returned reply m' →
                  ∃ data, Reply_Data reply = Some data ∧ refreshes inst data).
Proof.
  intros Hcmd Hdata.
  rewrite (proj2 (proj2 (Handle_dispatch E fuel cmd inst m Hdata)) Hcmd).
  unfold Handle_GetInfo, handleGetInfo.
  destruct (isMySQLConfig inst); simpl; cycle 1.
  { exists (set_repo (repo m) m). rewrite set_repo_same.
    split_and!; try done. intros reply [= <-]. exists inst.
    split; [done|apply refreshes_refl]. }
  destruct (GetMySQLInfo_cases E inst (repo m))
    as [(err & _ & ->) | [(_ & ->) | (h & d & v & data & _ & -> & Hk & _)]];
    eexists; (split; [done|]); split_and!; try done.
  - intros reply [= <-]. exists inst. split; [done|apply refreshes_refl].
  - intros reply [= <-]. by exists data.
Qed.

Lemma Handle_GetInfo_changes_nothing_witness :
  ∃ m', final (Handle Samples.offline 0
                 (Samples.command "GetInfo" Samples.mysqlA) Cases.added)
        = Some m' ∧
        it (repo m') = it (repo Cases.added) ∧
        disk (repo m') = disk (repo Cases.added) ∧
        mrm m' = mrm Cases.added ∧ mrmChans m' = mrmChans Cases.added ∧
        (isMySQLConfig Samples.mysqlA = false → m' = Cases.added) ∧
        (∀ reply,
           Handle Samples.offline 0 (Samples.command "GetInfo" Samples.mysqlA)
             Cases.added = Returned reply m' →
           ∃ data, Reply_Data reply = Some data ∧
                   refreshes Samples.mysqlA data).
Proof.
  apply (Handle_GetInfo_changes_nothing Samples.offline 0
           (Samples.command "GetInfo" Samples.mysqlA) Samples.mysqlA
           Cases.added); reflexivity.
Defined.

(** X26: the command GetInfo for a MySQL record with a [Properties] map,
    when the server named by its "dsn" answers the query: the reply has no
    error and its data is the record with "hostname", "distro" and "version"
    set to the three answers, its UUID, type, prefix and every other
    property, "dsn" among them, being as they were sent. *)
Theorem Handle_GetInfo_refreshes (E : Env) (fuel : nat) (cmd : Cmd)
    (inst : InstanceConfig) (m : Manager) (hostname distro version : string) :
  Cmd_ cmd = "GetInfo" → Data cmd = JSONObject inst →
  isMySQLConfig inst = true → is_Some (Properties inst) →
  mysql_info E (prop_get inst "dsn") = inl (hostname, distro, version) →
  ∃ data m',
    Handle E fuel cmd m = Returned (cmd_Reply (Some data) None) m' ∧
    refreshes inst data ∧
    prop_lookup data "dsn" = prop_lookup inst "dsn" ∧
    prop_lookup data "hostname" = Some hostname ∧
    prop_lookup data "distro" = Some distro ∧
    prop_lookup data "version" = Some version.
Proof.
  intros Hcmd Hdata Hmy [ps Hps] Hinfo.
  rewrite (proj2 (proj2 (Handle_dispatch E fuel cmd inst m Hdata)) Hcmd).
  unfold Handle_GetInfo, handleGetInfo. rewrite Hmy. simpl.
  destruct (GetMySQLInfo_cases E inst (repo m))
    as [(err & Herr & _) | [(Hnil & _)
       | (h & d & v & data & Hanswer & -> & Hk & Hh & Hd & Hver)]];
    [congruence..|].
  rewrite Hinfo in Hanswer. injection Hanswer as <- <- <-.
  exists data. eexists. split_and!; try done.
  destruct Hk as (_ & _ & _ & Hk). by apply Hk.
Qed.

Lemma Handle_GetInfo_refreshes_witness :
  ∃ data m',
    Handle Samples.offline 0 (Samples.command "GetInfo" Samples.mysqlA)
      Samples.empty_manager = Returned (cmd_Reply (Some data) None) m' ∧
    refreshes Samples.mysqlA data ∧
    prop_lookup data "dsn" = prop_lookup Samples.mysqlA "dsn" ∧
    prop_lookup data "hostname" = Some "db1" ∧
    prop_lookup data "distro" = Some "MySQL Community Server" ∧
    prop_lookup data "version" = Some "5.6.24".
Proof.
  apply (Handle_GetInfo_refreshes Samples.offline 0
           (Samples.command "GetInfo" Samples.mysqlA) Samples.mysqlA
           Samples.empty_manager); try reflexivity.
  by eexists.
Defined.

(** X27: a command whose payload is the JSON value [null] decodes without
    error to a nil record.  [Handle] then panics, with the manager as it
    was, for each of the three command names, which all dereference the
    record; for any other name it replies with the Unknown-command error
    that carries the name, and changes nothing. *)
Theorem Handle_null_payload (E : Env) (fuel : nat) (cmd : Cmd) (m : Manager) :
  Data cmd = JSONNull →
  (Cmd_ cmd = "Add" ∨ Cmd_ cmd = "Remove" ∨ Cmd_ cmd = "GetInfo" →
   Handle E fuel cmd m = Panicked m) ∧
  (Cmd_ cmd ≠ "Add" → Cmd_ cmd ≠ "Remove" → Cmd_ cmd ≠ "GetInfo" →
   Handle E fuel cmd m
   = Returned (cmd_Reply None (Some (UnknownCmdError (Cmd_ cmd)))) m).
Proof.
  intros Hdata. unfold Handle. rewrite Hdata. simpl. split.
  - by intros [-> | [-> | ->]].
  - intros H1%String.eqb_neq H2%String.eqb_neq H3%String.eqb_neq.
    by rewrite H1, H2, H3.
Qed.

Lemma Handle_null_payload_witness :
  (Handle Samples.offline 1 (Cases.null_command "Remove") Cases.added
   = Panicked Cases.added) ∧
  (Handle Samples.offline 1 (Cases.null_command "Update") Cases.added
   = Returned (cmd_Reply None (Some (UnknownCmdError "Update"))) Cases.added).
Proof.
  destruct (Handle_null_payload Samples.offline 1 (Cases.null_command "Remove")
              Cases.added eq_refl) as [H1 _].
  destruct (Handle_null_payload Samples.offline 1 (Cases.null_command "Update")
              Cases.added eq_refl) as [_ H2].
  split.
  - apply H1. right; left. reflexivity.
  - apply H2; discriminate.
Defined.



Lemma mrmMySQL_without_dns (E : Env) (inst : InstanceConfig) (m : Manager) :
  prop_lookup inst "dns" = None →
  mrmMySQL E inst m = Returned (Some (MissingDSNError (UUID inst)), inst) m.
Proof. intros H. unfold mrmMySQL. by rewrite H. Qed.

(** X29: the three functions that keep the monitor in step with lists of
    added, deleted and updated records read the server of a record under the
    property "dns".  For records without that property, as the command Add
    takes them with their "dsn", they do nothing: the manager, its monitor
    included, is as it was, and no server is probed.  And whatever the
    records, [mrmDeletedMySQL] leaves the registry and the channels that the
    manager keeps as they were. *)
Theorem mrm_functions_read_dns (E : Env) (insts : list InstanceConfig)
    (m : Manager) :
  (Forall (λ inst, prop_lookup inst "dns" = None) insts →
   mrmAddedMySQL E insts m = Returned insts m ∧
   mrmDeletedMySQL insts m = m ∧
   mrmUpdatedMySQL E insts m = Returned insts m) ∧
  repo (mrmDeletedMySQL insts m) = repo m ∧
  mrmChans (mrmDeletedMySQL insts m) = mrmChans m.
Proof.
  split.
  - intros Hall.
    assert (Hdel : mrmDeletedMySQL insts m = m).
    { induction Hall as [|inst insts Hi _ IH]; simpl; [done|].
      by rewrite Hi. }
    assert (Hadd : ∀ m0, mrmAddedMySQL E insts m0 = Returned insts m0).
    { clear Hdel.
      induction Hall as [|inst insts Hi _ IH]; intros m0; simpl; [done|].
      by rewrite (mrmMySQL_without_dns E inst m0 Hi), IH. }
    unfold mrmUpdatedMySQL. by rewrite Hdel, Hadd.
  - revert m. induction insts as [|inst insts IH]; intros m; simpl; [done|].
    destruct (prop_lookup inst "dns"); [|apply IH].
    destruct (IH (set_mrm (monitor.Remove s (mrmChans_get m s) (mrm m)) m))
      as [-> ->]. done.
Qed.

Lemma mrm_functions_read_dns_witness :
  mrmAddedMySQL Samples.offline [Samples.mysqlA; Samples.mysqlB] Cases.added
  = Returned [Samples.mysqlA; Samples.mysqlB] Cases.added ∧
  mrmDeletedMySQL [Samples.mysqlA; Samples.mysqlB] Cases.added = Cases.added ∧
  mrmUpdatedMySQL Samples.offline [Samples.mysqlA; Samples.mysqlB] Cases.added
  = Returned [Samples.mysqlA; Samples.mysqlB] Cases.added.
Proof.
  apply (mrm_functions_read_dns Samples.offline
           [Samples.mysqlA; Samples.mysqlB] Cases.added).
  repeat constructor.
Defined.

(** X30: the list of UUIDs that [Status] joins for the registry is twice as
    long as the registry: it starts with one empty string per record, from
    [make([]string, len(list))], and the UUIDs are appended after them, in
    the order of [List]. *)
Theorem Status_uuids_spec (m : Manager) :
  Status_uuids m
  = (replicate (length (List (repo m))) "" ++ (UUID <$> List (repo m)))%list ∧
  length (Status_uuids m) = (2 * length (List (repo m)))%nat.
Proof.
  assert (H : ∀ (l : list InstanceConfig) (acc : list string),
    foldl (λ uuids inst, (uuids ++ [UUID inst])%list) acc l
    = (acc ++ (UUID <$> l))%list).
  { induction l as [|inst l IH]; intros acc; simpl.
    - by rewrite app_nil_r.
    - by rewrite IH, <- app_assoc. }
  unfold Status_uuids. rewrite H. split; [done|].
  rewrite length_app, length_replicate, length_fmap. lia.
Qed.
